(** * AppleNotesExport: the content-reconstruction pipeline

    A shallow embedding of [AppleNotesExport.py]: the decompressor, the run
    walker that rebuilds a note's text from its attribute runs, the attachment
    locator, the placeholder substitution loop and the title derivation of the
    per-note document, followed by the properties proved about them.

    Python values are modelled as follows.
    - A [str] is a list of Unicode code points ([N]); [bytes] is a list of
      [byte].
    - [None] is [option]'s [None]; truthiness tests ([if x], [x or y]) are
      written out as the functions [truthy_*] below.
    - External collaborators (zlib, the protobuf parser, the SQLite cursor, the
      file system, pathlib and the Unicode tables of the interpreter) are
      parameters: Section variables or fields of a record of oracles. *)

From Stdlib Require Import List NArith ZArith Lia String Ascii Bool.
From Stdlib.Strings Require Import Byte.
From Stdlib Require Import DecimalString.
From stdpp Require Import base option list gmap.

Set Default Goal Selector "!".

Abbreviation pystr := (list N).
Abbreviation bytes := (list byte).

(** ** Python strings *)

Module PyStr.

(** A literal of the source, read as a list of code points. *)
Definition str (s : string) : pystr := map N_of_ascii (list_ascii_of_string s).

(** [s[a:b]] for indices [0 <= a] and [0 <= b]: out-of-range indices are
    clamped to the length and an empty range gives the empty string. *)
Definition py_slice (s : pystr) (a b : nat) : pystr := take (b - a) (drop a s).

(** [if s:] on a string, and on a string that may be [None]. *)
Definition truthy (s : pystr) : bool :=
  match s with [] => false | _ :: _ => true end.

Definition truthy_opt (o : option pystr) : bool :=
  match o with Some s => truthy s | None => false end.

(** [a or b] where [a] may be [None] and [b] is a string. *)
Definition or_else (a : option pystr) (b : pystr) : pystr :=
  match a with
  | Some s => if truthy s then s else b
  | None => b
  end.

Definition eqb (a b : pystr) : bool := bool_decide (a = b).

(** [c.isspace()] as [str.strip()] and [str.split()] see it: the ASCII
    separators and the code points of Unicode's White_Space property. *)
Definition isspace (c : N) : bool :=
  ((9 <=? c) && (c <=? 13) || (28 <=? c) && (c <=? 32)
   || (c =? 133) || (c =? 160) || (c =? 5760)
   || (8192 <=? c) && (c <=? 8202)
   || (c =? 8232) || (c =? 8233) || (c =? 8239) || (c =? 8287)
   || (c =? 12288))%N.

Fixpoint lstrip (s : pystr) : pystr :=
  match s with
  | c :: s' => if isspace c then lstrip s' else s
  | [] => []
  end.

Definition rstrip (s : pystr) : pystr := rev (lstrip (rev s)).

(** [s.strip()] *)
Definition strip (s : pystr) : pystr := rstrip (lstrip s).

(** [s.split(sep, 1)[0]] for a one-character separator: the text before the
    first occurrence of [sep], or all of [s] when there is none. *)
Fixpoint before_first (sep : N) (s : pystr) : pystr :=
  match s with
  | c :: s' => if (c =? sep)%N then [] else c :: before_first sep s'
  | [] => []
  end.

(** [s.startswith(p)] *)
Fixpoint startswith (s p : pystr) : bool :=
  match p, s with
  | [], _ => true
  | _ :: _, [] => false
  | a :: p', b :: s' => (a =? b)%N && startswith s' p'
  end.

(** [needle in hay] *)
Fixpoint contains (hay needle : pystr) : bool :=
  startswith hay needle ||
  match hay with
  | [] => false
  | _ :: hay' => contains hay' needle
  end.

(** [s.replace(c, '')] for a one-character [c]. *)
Definition remove_char (c : N) (s : pystr) : pystr :=
  filter (fun x => x ≠ c) s.

(** [s.replace(a, b)] for one-character [a] and [b]. *)
Definition replace_char (a b : N) (s : pystr) : pystr :=
  map (fun x => if (x =? a)%N then b else x) s.

(** [s.split()]: the maximal runs of non-space characters. *)
Fixpoint split_ws_aux (cur : pystr) (s : pystr) : list pystr :=
  match s with
  | [] => match cur with [] => [] | _ => [rev cur] end
  | c :: s' =>
      if isspace c
      then match cur with
           | [] => split_ws_aux [] s'
           | _ => rev cur :: split_ws_aux [] s'
           end
      else split_ws_aux (c :: cur) s'
  end.

Definition split_ws (s : pystr) : list pystr := split_ws_aux [] s.

(** [sep.join(parts)] *)
Fixpoint join (sep : pystr) (parts : list pystr) : pystr :=
  match parts with
  | [] => []
  | [p] => p
  | p :: rest => p ++ sep ++ join sep rest
  end.

(** [str(n)] for an integer. *)
Definition of_Z (n : Z) : pystr := str (NilZero.string_of_int (Z.to_int n)).

(** U+FFFC, the object replacement character that stands for an attachment
    in a note's text buffer. *)
Definition OBJECT_REPLACEMENT : N := 65532.

Definition NEWLINE : N := 10.

End PyStr.

Import PyStr.

(** ** Decompressor *)

Module Zlib.

(** Outcome of [zlib.decompress] on a [bytes] argument: the inflated stream
    or [zlib.error]. *)
Inductive zresult :=
| ZOk (out : bytes)
| ZError.

(** The container formats that the [wbits] argument selects. *)
Inductive container := GzipFramed | ZlibFramed | RawDeflate | AutoDetect.

Definition MAX_WBITS : Z := 15.

(** The reading of [wbits] documented for [zlib.decompress]: 8..15 expects a
    zlib header and trailer, -8..-15 a raw stream without either, 24..31 a
    gzip header and trailer, and 40..47 detects zlib or gzip. *)
Definition container_of_wbits (wbits : Z) : option container :=
  if ((8 <=? wbits) && (wbits <=? 15))%Z then Some ZlibFramed
  else if ((-15 <=? wbits) && (wbits <=? -8))%Z then Some RawDeflate
  else if ((24 <=? wbits) && (wbits <=? 31))%Z then Some GzipFramed
  else if ((40 <=? wbits) && (wbits <=? 47))%Z then Some AutoDetect
  else None.

Section Decompressor.

(** [zlib.decompress(data, wbits)] *)
Variable zlib_decompress : Z -> bytes -> zresult.

(** [decompress_gzip_data], returning with the result the [wbits] of the
    calls to [zlib.decompress] that were made, in order.  A blob that is
    [None] makes the first call raise [TypeError], which the
    [except Exception] clause turns into [None]. *)
Definition decompress_calls (gzipped_data : option bytes)
    : option bytes * list Z :=
  match gzipped_data with
  | None => (None, [16 + MAX_WBITS]%Z)
  | Some data =>
      match zlib_decompress (16 + MAX_WBITS) data with
      | ZOk out => (Some out, [16 + MAX_WBITS]%Z)
      | ZError =>
          match zlib_decompress MAX_WBITS data with
          | ZOk out => (Some out, [16 + MAX_WBITS; MAX_WBITS]%Z)
          | ZError => (None, [16 + MAX_WBITS; MAX_WBITS]%Z)
          end
      end
  end.

Definition decompress_gzip_data (gzipped_data : option bytes) : option bytes :=
  fst (decompress_calls gzipped_data).

End Decompressor.

End Zlib.

(** ** The parsed record *)

Module Proto.

(** Modelled from the spec: the message types of [apple_notes_pb2], which is
    generated from a schema that is not part of the source.  The spec's data
    model gives an attribute run a length that is an integer >= 0 and an
    optional attachmentInfo with an identifier and a UTI; a note holds the
    text buffer and the ordered runs; document and note are optional. *)
Record AttachmentInfo := {
  attachmentIdentifier : pystr;
  typeUti : pystr
}.

(** Modelled from the spec: an attribute run, with a length that is an
    integer >= 0 and an optional attachmentInfo. *)
Record AttributeRun := {
  length : nat;
  attachmentInfo : option AttachmentInfo
}.

(** Modelled from the spec: a note, its text buffer and its ordered runs. *)
Record Note := {
  noteText : pystr;
  attributeRun : list AttributeRun
}.

(** Modelled from the spec: the typed tree, in which document and note are
    optional. *)
Record Document := {
  note : option Note
}.

Record NoteStoreProto := {
  document : option Document
}.

(** A run of literal text and a run that stands for an attachment. *)
Definition text_run (l : nat) : AttributeRun :=
  {| length := l; attachmentInfo := None |}.

Definition attachment_run (l : nat) (id uti : pystr) : AttributeRun :=
  {| length := l;
     attachmentInfo := Some {| attachmentIdentifier := id; typeUti := uti |} |}.

End Proto.

(** ** Run walker *)

Module Reconstruct.

Inductive mode := WithPlaceholders | TextOnly.

(** [f"![ATTACHMENT|{id}|{uti}]"] *)
Definition placeholder_token (ai : Proto.AttachmentInfo) : pystr :=
  str "![ATTACHMENT|" ++ Proto.attachmentIdentifier ai ++ str "|"
  ++ Proto.typeUti ai ++ str "]".

(** Body of the [for run in note.attributeRun] loop of
    [decode_note_protobuf], on the loop state [(text, pos)]. *)
Definition run_body (content : pystr) (st : pystr * nat)
    (run : Proto.AttributeRun) : pystr * nat :=
  let '(text, pos) := st in
  let l := Proto.length run in
  let seg := py_slice content pos (pos + l) in
  match Proto.attachmentInfo run with
  | Some ai => (text ++ placeholder_token ai, pos + l)
  | None => (text ++ seg, pos + l)
  end.

(** Body of the same loop in [decode_note_protobuf_text_only]. *)
Definition run_body_text_only (content : pystr) (st : pystr * nat)
    (run : Proto.AttributeRun) : pystr * nat :=
  let '(text, pos) := st in
  let l := Proto.length run in
  let seg := py_slice content pos (pos + l) in
  match Proto.attachmentInfo run with
  | None => (text ++ seg, pos + l)
  | Some _ => (text, pos + l)
  end.

Definition body_of (m : mode) :=
  match m with
  | WithPlaceholders => run_body
  | TextOnly => run_body_text_only
  end.

(** The loop, started at [text, pos = "", 0]. *)
Definition walk (m : mode) (content : pystr)
    (runs : list Proto.AttributeRun) : pystr * nat :=
  fold_left (body_of m content) runs ([], 0).

(** The loop states on entry to each iteration. *)
Fixpoint walk_states (m : mode) (content : pystr)
    (runs : list Proto.AttributeRun) (st : pystr * nat) : list (pystr * nat) :=
  match runs with
  | [] => []
  | run :: rest => st :: walk_states m content rest (body_of m content st run)
  end.

(** The part of [decode_note_protobuf] that runs once [document.note] is
    known to be present. *)
Definition note_text (n : Proto.Note) : pystr :=
  let content := Proto.noteText n in
  match Proto.attributeRun n with
  | [] => content
  | runs => fst (walk WithPlaceholders content runs)
  end.

(** The same part of [decode_note_protobuf_text_only]; the result is cleaned
    and stripped. *)
Definition note_text_only (n : Proto.Note) : pystr :=
  let content := Proto.noteText n in
  let text :=
    match Proto.attributeRun n with
    | [] => content
    | runs => fst (walk TextOnly content runs)
    end in
  strip (remove_char OBJECT_REPLACEMENT text).

Definition truthy_bytes (o : option bytes) : bool :=
  match o with Some (_ :: _) => true | _ => false end.

Section Decode.

Variable zlib_decompress : Z -> bytes -> Zlib.zresult.

(** [NoteStoreProto().ParseFromString(data)]; [None] stands for the exception
    a malformed message raises. *)
Variable parse : bytes -> option Proto.NoteStoreProto.

(** The shared frame of the two decoders: the guards on the blob and on the
    decompressed bytes, the parse, and the [HasField] tests. *)
Definition decode_with (on_note : Proto.Note -> pystr)
    (data_blob : option bytes) : pystr :=
  if negb (truthy_bytes data_blob) then str "[No data blob]"
  else
    let decompressed := Zlib.decompress_gzip_data zlib_decompress data_blob in
    if negb (truthy_bytes decompressed) then str "[Decompression failed]"
    else
      match decompressed with
      | None => str "[Decompression failed]"
      | Some raw =>
          match parse raw with
          | None => str "[Proto decode error]"
          | Some proto =>
              match Proto.document proto with
              | Some doc =>
                  match Proto.note doc with
                  | Some n => on_note n
                  | None => str "[Doc/Note not found in Proto]"
                  end
              | None => str "[Doc/Note not found in Proto]"
              end
          end
      end.

Definition decode_note_protobuf : option bytes -> pystr :=
  decode_with note_text.

Definition decode_note_protobuf_text_only : option bytes -> pystr :=
  decode_with note_text_only.

(** [reconstruct(note, mode)] of the design, dispatching to the two decoders. *)
Definition reconstruct (m : mode) : option bytes -> pystr :=
  match m with
  | WithPlaceholders => decode_note_protobuf
  | TextOnly => decode_note_protobuf_text_only
  end.

End Decode.

(** What one run contributes to the output when the cursor is at [P], in the
    words of the design: the slice [noteText[P:P+L]] for a run without
    attachmentInfo; for a run with attachmentInfo the placeholder token in
    WithPlaceholders mode and nothing in TextOnly mode. *)
Definition contribution (m : mode) (content : pystr) (P : nat)
    (run : Proto.AttributeRun) : pystr :=
  match Proto.attachmentInfo run, m with
  | None, _ => py_slice content P (P + Proto.length run)
  | Some ai, WithPlaceholders => placeholder_token ai
  | Some _, TextOnly => []
  end.

(** The output of the design's walk with the cursor at [P]: the contributions
    of the runs in order, the cursor advancing by each run's length. *)
Fixpoint walk_spec (m : mode) (content : pystr) (P : nat)
    (runs : list Proto.AttributeRun) : pystr :=
  match runs with
  | [] => []
  | run :: rest =>
      contribution m content P run
      ++ walk_spec m content (P + Proto.length run) rest
  end.

Definition total_length (runs : list Proto.AttributeRun) : nat :=
  list_sum (map Proto.length runs).

(** A blob that decompresses and parses to a document holding the note [n]. *)
Definition decodes_to (zl : Z -> bytes -> Zlib.zresult)
    (parse : bytes -> option Proto.NoteStoreProto)
    (blob : option bytes) (n : Proto.Note) : Prop :=
  truthy_bytes blob = true /\
  exists raw proto doc,
    Zlib.decompress_gzip_data zl blob = Some raw /\ raw <> [] /\
    parse raw = Some proto /\ Proto.document proto = Some doc /\
    Proto.note doc = Some n.

End Reconstruct.

(** ** External collaborators of the locator *)

Module Storage.

(** A [pathlib.Path], as the list of its components. *)
Abbreviation path := (list pystr).

(** [p / seg] for a segment that is a plain name: an empty segment leaves the
    path as it is.  A segment that starts with a separator, for which pathlib
    discards [p], or that holds a separator or is a dot, is not a plain name
    and is outside this definition: nothing below relies on where a path
    built from such a segment lies. *)
Definition div (p : path) (seg : pystr) : path :=
  match seg with
  | [] => p
  | _ :: _ => p ++ [seg]
  end.

(** [p.name] *)
Definition name (p : path) : pystr := List.last p [].

(** [str(p)] for a relative path. *)
Definition render (p : path) : pystr := join (str "/") p.

(** [NOTES_DATA_PATH]; the first component stands for the expanded home
    directory. *)
Definition NOTES_DATA_PATH : path :=
  [str "~"; str "Library"; str "Group Containers";
   str "group.com.apple.notes"].

Definition ATTACHMENTS_SUBDIR : pystr := str "_attachments".

(** What [cursor.execute(...).fetchone()] does: a row, no row, or
    [sqlite3.OperationalError]; of the error only whether its message
    contains "no such column: ZGENERATION1" is ever looked at. *)
Inductive qresult (A : Type) :=
| Row (r : A)
| NoRow
| OperationalError (no_generation_column : bool).

Arguments Row {A} r.
Arguments NoRow {A}.
Arguments OperationalError {A} no_generation_column.

(** The queries of the source on ZICCLOUDSYNCINGOBJECT, each with its bound
    parameters, the test for a path, and [shutil.copy2] ([true] when the copy
    succeeds, [false] when it raises).  Sizes of a gallery are taken to be
    integers. *)
Record World := {
  q_account : Z -> Z -> qresult (option pystr);
  q_att : pystr -> Z -> qresult (Z * option pystr * option Z);
  q_med : Z -> Z -> qresult (option pystr * option pystr * option pystr);
  q_med_fb : option Z -> Z -> qresult (option pystr * option pystr);
  q_fallback_image : Z -> Z -> qresult (option pystr * option pystr);
  q_fallback_pdf : Z -> Z -> qresult (option pystr * option pystr);
  q_gallery : Z -> Z -> qresult (option pystr * option Z * option Z);
  path_exists : path -> bool;
  copy2 : path -> path -> bool
}.

(** The lookups and effects a run performs, in order. *)
Inductive event :=
| DbAccount (owner_pk : Z)
| DbAttachment (attach_id : pystr)
| DbMedia (med_pk : Z)
| DbMediaFallback (med_pk : option Z)
| DbFallbackImage (att_pk : Z)
| DbFallbackPdf (att_pk : Z)
| DbGallery (att_pk : Z)
| FsExists (p : path)
| FsCopy (src dst : path)
| FsMkdir (p : path).

(** Is the event a database or a file-system lookup made to resolve an
    attachment? *)
Definition is_lookup (e : event) : bool :=
  match e with
  | FsMkdir _ | DbAccount _ => false
  | _ => true
  end.

(** Computations that log their events. *)
Definition M (A : Type) : Type := A * list event.

Definition ret {A} (a : A) : M A := (a, []).

Definition bind {A B} (m : M A) (k : A -> M B) : M B :=
  let '(a, l1) := m in
  let '(b, l2) := k a in
  (b, l1 ++ l2).

Definition emit {A} (e : event) (a : A) : M A := (a, [e]).

(** The functions of the interpreter and its library that depend on Unicode
    tables, on the platform or on the version: [c.isalnum()], [s.lower()],
    [mimetypes.guess_extension], and [Path(s).stem] and [Path(s).suffix]. *)
Record PyLib := {
  isalnum : N -> bool;
  lower : pystr -> pystr;
  guess_extension : pystr -> option pystr;
  path_stem : pystr -> pystr;
  path_suffix : pystr -> pystr
}.

(** The entity numbers of [get_entity_ids]. *)
Record EntityIds := {
  ICNote : Z;
  ICFolder : Z;
  ICAttachment : Z;
  ICMedia : Z;
  ICAccount : Z
}.

End Storage.

Declare Scope log_scope.
Delimit Scope log_scope with log.
Notation "'let*' x ':=' m 'in' k" := (Storage.bind m (fun x => k))
  (at level 10, x name, m at level 100, k at level 200) : log_scope.
Notation "p // seg" := (Storage.div p seg)
  (at level 40, left associativity) : log_scope.

(** ** Attachment locator *)

Module Locator.

Import Storage.
Local Open Scope log_scope.

(** The six values [get_attachment_and_media_details] returns. *)
Record details := {
  att_pk : option Z;
  uti : option pystr;
  med_pk : option Z;
  med_id : option pystr;
  fname : option pystr;
  gen : option pystr
}.

Definition no_details : details :=
  {| att_pk := None; uti := None; med_pk := None;
     med_id := None; fname := None; gen := None |}.

(** The handler of [sqlite3.OperationalError] in
    [get_attachment_and_media_details], entered with the values of [att_pk],
    [uti] and [med_pk] assigned so far. *)
Definition on_operational_error (w : World) (no_generation_column : bool)
    (a : option Z) (u : option pystr) (m : option Z) (z_med : Z)
    : M details :=
  if no_generation_column then
    let* r := emit (DbMediaFallback m) (q_med_fb w m z_med) in
    match r with
    | Row (i, f) =>
        ret {| att_pk := a; uti := u; med_pk := m;
               med_id := i; fname := f; gen := None |}
    | NoRow | OperationalError _ =>
        ret {| att_pk := a; uti := u; med_pk := m;
               med_id := None; fname := None; gen := None |}
    end
  else ret no_details.

Definition get_attachment_and_media_details (w : World) (attach_id : pystr)
    (z_att z_med : Z) : M details :=
  let* r := emit (DbAttachment attach_id) (q_att w attach_id z_att) in
  match r with
  | OperationalError b => on_operational_error w b None None None z_med
  | NoRow => ret no_details
  | Row (pk, u, None) =>
      ret {| att_pk := Some pk; uti := u; med_pk := None;
             med_id := None; fname := None; gen := None |}
  | Row (pk, u, Some m) =>
      let* r2 := emit (DbMedia m) (q_med w m z_med) in
      match r2 with
      | Row (i, f, g) =>
          ret {| att_pk := Some pk; uti := u; med_pk := Some m;
                 med_id := i; fname := f; gen := g |}
      | NoRow =>
          ret {| att_pk := Some pk; uti := u; med_pk := Some m;
                 med_id := None; fname := None; gen := None |}
      | OperationalError b =>
          on_operational_error w b (Some pk) u (Some m) z_med
      end
  end.

Definition probe (w : World) (p : path) : M bool :=
  emit (FsExists p) (path_exists w p).

(** Run [k] unless [m] has already returned a path. *)
Definition or_next (m : M (option path)) (k : M (option path))
    : M (option path) :=
  let* r := m in
  match r with
  | Some p => ret (Some p)
  | None => k
  end.

(** [res if res else (None, None)], with the error of the query caught. *)
Definition row_or_nones {A B} (r : qresult (option A * option B))
    : option A * option B :=
  match r with
  | Row x => x
  | NoRow | OperationalError _ => (None, None)
  end.

Definition drawing_utis : list pystr :=
  [str "com.apple.drawing"; str "com.apple.drawing.2"; str "com.apple.paper"].

(** The "Standard Media" block of the loop body over the base directories. *)
Definition standard_media (w : World) (base : path)
    (med_id fname gen : option pystr) : M (option path) :=
  match med_id, fname with
  | Some mid, Some fn =>
      if truthy mid && truthy fn then
        let g := or_else gen [] in
        let p := base // str "Media" // mid // g // fn in
        let* b := probe w p in
        if b then ret (Some p)
        else if truthy g then
          let p_no_g := base // str "Media" // mid // fn in
          let* b2 := probe w p_no_g in
          if b2 then ret (Some p_no_g) else ret None
        else ret None
      else ret None
  | _, _ => ret None
  end.

(** The "Drawings" block.  The [for ext in ["jpg", "png"]] loop only assigns
    [p]; the test that follows it sees the value of the last iteration. *)
Definition drawings (w : World) (base : path) (att_pk : Z) (uti : pystr)
    (z_att : Z) : M (option path) :=
  if existsb (eqb uti) drawing_utis then
    let* r := emit (DbFallbackImage att_pk) (q_fallback_image w att_pk z_att) in
    let '(a_uuid, fb_g) := row_or_nones r in
    match a_uuid with
    | Some a =>
        if truthy a then
          let after_generation :=
            let p :=
              fold_left
                (fun _ ext => base // str "FallbackImages"
                                // (a ++ str "." ++ ext))
                [str "jpg"; str "png"] base in
            let* b := probe w p in
            if b then ret (Some p) else ret None in
          match fb_g with
          | Some g =>
              if truthy g then
                let p := base // str "FallbackImages" // a // g
                           // str "FallbackImage.png" in
                let* b := probe w p in
                if b then ret (Some p) else after_generation
              else after_generation
          | None => after_generation
          end
        else ret None
    | None => ret None
    end
  else ret None.

(** The "Modified Scan PDF" block. *)
Definition scan_pdf (w : World) (base : path) (att_pk : Z) (uti : pystr)
    (z_att : Z) : M (option path) :=
  if eqb uti (str "com.apple.paper.doc.scan") then
    let* r := emit (DbFallbackPdf att_pk) (q_fallback_pdf w att_pk z_att) in
    let '(a_uuid, fb_g) := row_or_nones r in
    match a_uuid with
    | Some a =>
        if truthy a then
          let p := base // str "FallbackPDFs" // a // or_else fb_g []
                     // str "FallbackPDF.pdf" in
          let* b := probe w p in
          if b then ret (Some p) else ret None
        else ret None
    | None => ret None
    end
  else ret None.

Definition truthy_int (o : option Z) : bool :=
  match o with
  | Some z => negb (z =? 0)%Z
  | None => false
  end.

(** The "Scan Gallery Preview" block. *)
Definition gallery (w : World) (base : path) (att_pk : Z) (uti : pystr)
    (z_att : Z) : M (option path) :=
  if eqb uti (str "com.apple.notes.gallery") then
    let* r := emit (DbGallery att_pk) (q_gallery w att_pk z_att) in
    match r with
    | Row (Some a, Some wd, Some ht) =>
        if truthy a && truthy_int (Some wd) && truthy_int (Some ht) then
          let p := base // str "Previews"
                     // (a ++ str "-1-" ++ of_Z wd ++ str "x" ++ of_Z ht
                           ++ str "-0.jpeg") in
          let* b := probe w p in
          if b then ret (Some p) else ret None
        else ret None
    | _ => ret None
    end
  else ret None.

(** One iteration of [for base in paths]. *)
Definition try_base (w : World) (att_pk : Z) (uti : pystr)
    (med_id fname gen : option pystr) (z_att : Z) (base : path)
    : M (option path) :=
  or_next (standard_media w base med_id fname gen)
    (or_next (drawings w base att_pk uti z_att)
      (or_next (scan_pdf w base att_pk uti z_att)
        (gallery w base att_pk uti z_att))).

Fixpoint first_base (w : World) (att_pk : Z) (uti : pystr)
    (med_id fname gen : option pystr) (z_att : Z) (paths : list path)
    : M (option path) :=
  match paths with
  | [] => ret None
  | base :: rest =>
      or_next (try_base w att_pk uti med_id fname gen z_att base)
        (first_base w att_pk uti med_id fname gen z_att rest)
  end.

(** The candidate base directories, the account's first. *)
Definition candidate_bases (acc_uuid : option pystr) : list path :=
  (if truthy_opt acc_uuid
   then [NOTES_DATA_PATH // str "Accounts" // or_else acc_uuid []]
   else [])
  ++ [NOTES_DATA_PATH].

Definition find_attachment_source_path (w : World) (att_pk : Z) (uti : pystr)
    (med_id fname gen : option pystr) (z_att : Z) (acc_uuid : option pystr)
    : M (option path) :=
  first_base w att_pk uti med_id fname gen z_att (candidate_bases acc_uuid).

End Locator.

(** ** Placeholder substitution *)

Module Substitute.

Import Storage Locator.
Local Open Scope log_scope.

(** A match of [r'!\[ATTACHMENT\|([^|]+)\|([^\]]+)\]']: [m.start()],
    [m.end()], [m.group(1)] and [m.group(2)]. *)
Record rmatch := {
  m_start : nat;
  m_end : nat;
  m_att_id : pystr;
  m_uti_ph : pystr
}.

Definition BAR : N := 124.
Definition RBRACKET : N := 93.

(** The pattern anchored at the head of [s]: the literal [![ATTACHMENT|], a
    non-empty greedy run of characters other than [|] followed by [|], a
    non-empty greedy run of characters other than []] followed by []].  A
    greedy run that stops at the end of the text cannot be saved by
    backtracking, since every shorter run is followed by a character of the
    run.  The result is the length of the match and the two groups. *)
Definition match_here (s : pystr) : option (nat * pystr * pystr) :=
  let lit := str "![ATTACHMENT|" in
  if startswith s lit then
    let rest := drop (length lit) s in
    let g1 := before_first BAR rest in
    if truthy g1 && (length g1 <? length rest) then
      let rest2 := drop (S (length g1)) rest in
      let g2 := before_first RBRACKET rest2 in
      if truthy g2 && (length g2 <? length rest2) then
        Some (length lit + length g1 + 1 + length g2 + 1, g1, g2)
      else None
    else None
  else None.

(** The leftmost match in [s], which is the text from index [i] on. *)
Fixpoint search_from (s : pystr) (i : nat) : option rmatch :=
  match match_here s with
  | Some (len, g1, g2) =>
      Some {| m_start := i; m_end := i + len;
              m_att_id := g1; m_uti_ph := g2 |}
  | None =>
      match s with
      | [] => None
      | _ :: s' => search_from s' (S i)
      end
  end.

(** [regex.search(processed, offset)] *)
Definition regex_search (processed : pystr) (offset : nat) : option rmatch :=
  search_from (drop offset processed) offset.

Definition UTI_EXTENSIONS : list (pystr * pystr) :=
  [(str "public.jpeg", str ".jpg"); (str "public.png", str ".png");
   (str "public.gif", str ".gif"); (str "public.tiff", str ".tiff");
   (str "com.adobe.pdf", str ".pdf"); (str "public.plain-text", str ".txt");
   (str "public.rtf", str ".rtf"); (str "public.url", str ".url");
   (str "public.vcard", str ".vcf");
   (str "com.apple.keynote.key", str ".key");
   (str "com.apple.keynote.kth", str ".kth");
   (str "com.apple.numbers.numbers", str ".numbers");
   (str "com.apple.pages.pages", str ".pages");
   (str "com.microsoft.word.doc", str ".doc");
   (str "org.openxmlformats.wordprocessingml.document", str ".docx");
   (str "com.microsoft.excel.xls", str ".xls");
   (str "org.openxmlformats.spreadsheetml.sheet", str ".xlsx");
   (str "com.microsoft.powerpoint.ppt", str ".ppt");
   (str "org.openxmlformats.presentationml.presentation", str ".pptx");
   (str "public.mpeg-4", str ".mp4"); (str "public.mpeg-4-audio", str ".m4a");
   (str "public.mp3", str ".mp3");
   (str "com.apple.quicktime-movie", str ".mov");
   (str "com.apple.drawing", str ".png");
   (str "com.apple.drawing.2", str ".png"); (str "com.apple.paper", str ".png");
   (str "com.apple.paper.doc.scan", str ".pdf");
   (str "com.apple.notes.gallery", str ".jpg")].

(** [d[k]] when [k in d], for a dictionary written as its items. *)
Fixpoint dict_get (d : list (pystr * pystr)) (k : pystr) : option pystr :=
  match d with
  | [] => None
  | (k', v) :: d' => if eqb k k' then Some v else dict_get d' k
  end.

Section WithLibrary.

Variable lib : PyLib.

Definition get_extension_from_uti (uti : pystr)
    (fallback_filename : option pystr) : pystr :=
  match dict_get UTI_EXTENSIONS uti with
  | Some ext => ext
  | None =>
      match guess_extension lib uti with
      | Some (c :: ext) => c :: ext
      | _ =>
          match fallback_filename with
          | Some (c :: f) => path_suffix lib (c :: f)
          | _ => str ".bin"
          end
      end
  end.

(** [sanitize_filename]; a [name] that is not a string is [None]. *)
Definition sanitize_filename (name : option pystr) (allow_slashes : bool)
    : pystr :=
  let name := match name with Some s => s | None => str "Untitled" end in
  let allowed :=
    [32; 95; 45]%N ++ (if allow_slashes then [47]%N else []) in
  let sanitized :=
    filter (fun c => isalnum lib c || existsb (N.eqb c) allowed = true) name in
  let res := strip (py_slice (join (str "_") (split_ws sanitized)) 0 150) in
  if truthy res then res else str "Untitled".

(** [get_account_uuid], with the process-wide [account_uuid_cache] passed in
    and returned. *)
Definition get_account_uuid (w : World)
    (account_uuid_cache : gmap Z (option pystr))
    (owner_pk : option Z) (z_ent_account : Z)
    : M (option pystr * gmap Z (option pystr)) :=
  match owner_pk with
  | None => ret (None, account_uuid_cache)
  | Some pk =>
      match account_uuid_cache !! pk with
      | Some uuid => ret (uuid, account_uuid_cache)
      | None =>
          let* r := emit (DbAccount pk) (q_account w pk z_ent_account) in
          match r with
          | Row uuid => ret (uuid, <[pk := uuid]> account_uuid_cache)
          | NoRow => ret (None, <[pk := None]> account_uuid_cache)
          | OperationalError _ => ret (None, account_uuid_cache)
          end
      end
  end.

Definition non_file : list pystr :=
  [str "com.apple.notes.table";
   str "com.apple.notes.inlinetextattachment.hashtag";
   str "com.apple.notes.inlinetextattachment.mention";
   str "com.apple.notes.inlinetextattachment.link";
   str "public.url"].

Definition img : list pystr :=
  [str "image"; str "jpeg"; str "png"; str "gif"; str "tiff"; str "scan";
   str "drawing"; str "gallery"; str "public.jpeg"; str "public.png";
   str "public.tiff"; str "public.gif"; str "com.apple.drawing";
   str "com.apple.drawing.2"; str "com.apple.paper"].

Definition pdf : list pystr :=
  [str "pdf"; str "com.adobe.pdf"; str "com.apple.paper.doc.scan"].

(** [any(i in s for i in l)] *)
Definition any_in (l : list pystr) (s : pystr) : bool :=
  existsb (fun i => contains s i) l.

(** The markup chosen once the copy has succeeded. *)
Definition markup (eff_uti alt rel_path : pystr) : pystr :=
  let is_img := any_in img (lower lib eff_uti) in
  let is_pdf := any_in pdf (lower lib eff_uti) in
  if is_img then str "![" ++ alt ++ str "](" ++ rel_path ++ str ")"
  else if is_pdf then str "[" ++ alt ++ str " (PDF)](" ++ rel_path ++ str ")"
  else str "[" ++ alt ++ str " (File)](" ++ rel_path ++ str ")".

(** The per-note memo [processed_cache]: identifier to
    [(dest_fname, repl)]. *)
Abbreviation memo := (gmap pystr (option pystr * pystr)).

(** The branch taken for an identifier that has a database row and a located
    source file. *)
Definition materialize (w : World) (att_dir : path) (processed_cache : memo)
    (att_id eff_uti : pystr) (att_pk : Z) (fname : option pystr) (src : path)
    : M (pystr * memo) :=
  let base_fname := or_else fname (name src) in
  let stem := path_stem lib base_fname in
  let ext := get_extension_from_uti eff_uti (Some base_fname) in
  let safe_stem := sanitize_filename (Some stem) false in
  let dest_fname := safe_stem ++ str "_" ++ of_Z att_pk ++ ext in
  let dest_path := att_dir // dest_fname in
  let* copied := emit (FsCopy src dest_path) (copy2 w src dest_path) in
  if copied then
    let rel_path := render ([ATTACHMENTS_SUBDIR] // dest_fname) in
    let alt := replace_char 95 32 safe_stem in
    let repl := markup eff_uti alt rel_path in
    ret (repl, <[att_id := (Some dest_fname, repl)]> processed_cache)
  else ret (str "[Error copy " ++ base_fname ++ str "]", processed_cache).

(** The [if]/[elif]/[else] of the loop body that chooses [repl] for the token
    with groups [att_id] and [uti_ph], and updates the memo. *)
Definition resolve (w : World) (ids : EntityIds) (att_dir : path)
    (acc_uuid : option pystr) (processed_cache : memo)
    (att_id uti_ph : pystr) : M (pystr * memo) :=
  if existsb (eqb uti_ph) non_file then
    ret (str "[Unsupported: " ++ uti_ph ++ str "]", processed_cache)
  else
    match processed_cache !! att_id with
    | Some (_, repl) => ret (repl, processed_cache)
    | None =>
        let* d := get_attachment_and_media_details w att_id
                    (ICAttachment ids) (ICMedia ids) in
        let eff_uti := or_else (uti d) uti_ph in
        if truthy_int (att_pk d) then
          let pk := default 0%Z (att_pk d) in
          let* src := find_attachment_source_path w pk eff_uti
                        (med_id d) (fname d) (gen d) (ICAttachment ids)
                        acc_uuid in
          match src with
          | Some src =>
              materialize w att_dir processed_cache att_id eff_uti pk
                (fname d) src
          | None =>
              let repl := str "[Att source missing: "
                            ++ or_else (fname d) att_id ++ str "]" in
              ret (repl, <[att_id := (None, repl)]> processed_cache)
          end
        else
          ret (str "[Att DB missing: " ++ att_id ++ str "]", processed_cache)
    end.

(** The variables of the [while True] loop, with the log of events so far. *)
Record state := {
  processed : pystr;
  offset : nat;
  processed_cache : memo;
  events : list event
}.

(** One iteration of the loop; [None] is the [break]. *)
Definition scan_step (w : World) (ids : EntityIds) (att_dir : path)
    (acc_uuid : option pystr) (st : state) : option state :=
  match regex_search (processed st) (offset st) with
  | None => None
  | Some m =>
      let '((repl, cache'), evs) :=
        resolve w ids att_dir acc_uuid (processed_cache st)
          (m_att_id m) (m_uti_ph m) in
      Some {| processed := take (m_start m) (processed st) ++ repl
                             ++ drop (m_end m) (processed st);
              offset := m_start m + length repl;
              processed_cache := cache';
              events := events st ++ evs |}
  end.

(** The loop, for at most [fuel] iterations; iteration [k] sees the database
    and the file system as they are then, [env k].  [None] means that the
    fuel ran out before the [break]. *)
Fixpoint scan_loop (fuel : nat) (env : nat -> World) (k : nat)
    (ids : EntityIds) (att_dir : path) (acc_uuid : option pystr) (st : state)
    : option state :=
  match fuel with
  | 0 => None
  | S fuel' =>
      match scan_step (env k) ids att_dir acc_uuid st with
      | None => Some st
      | Some st' => scan_loop fuel' env (S k) ids att_dir acc_uuid st'
      end
  end.

(** The loop state after exactly [n] iterations from [st], when the loop makes
    that many before its [break]. *)
Fixpoint run_steps (n : nat) (env : nat -> World) (k : nat)
    (ids : EntityIds) (att_dir : path) (acc_uuid : option pystr) (st : state)
    : option state :=
  match n with
  | 0 => Some st
  | S n' =>
      match scan_step (env k) ids att_dir acc_uuid st with
      | None => None
      | Some st' => run_steps n' env (S k) ids att_dir acc_uuid st'
      end
  end.

(** The loop state on entry, after the attachments directory is made and the
    account's identifier is looked up. *)
Definition initial_state (env : nat -> World)
    (account_uuid_cache : gmap Z (option pystr))
    (text_placeholders : pystr) (owner_pk : option Z) (base_path : path)
    (ids : EntityIds) : state * option pystr * gmap Z (option pystr) :=
  let att_dir := base_path // ATTACHMENTS_SUBDIR in
  let '((acc_uuid, cache'), evs) :=
    get_account_uuid (env 0) account_uuid_cache owner_pk (ICAccount ids) in
  ({| processed := text_placeholders; offset := 0;
      processed_cache := ∅; events := FsMkdir att_dir :: evs |},
   acc_uuid, cache').

(** [process_attachments].  The result is the final loop state, whose
    [processed] is the returned text, and the account cache.  One iteration
    more than the text has characters is always enough (see [ScanProps]). *)
Definition process_attachments (env : nat -> World)
    (account_uuid_cache : gmap Z (option pystr))
    (text_placeholders : pystr) (note_pk : Z) (owner_pk : option Z)
    (base_path : path) (ids : EntityIds)
    : option (state * gmap Z (option pystr)) :=
  let '(st0, acc_uuid, cache') :=
    initial_state env account_uuid_cache text_placeholders owner_pk
      base_path ids in
  match scan_loop (S (length text_placeholders)) env 0 ids
          (base_path // ATTACHMENTS_SUBDIR) acc_uuid st0 with
  | Some st => Some (st, cache')
  | None => None
  end.

End WithLibrary.

End Substitute.

(** ** Document composer *)

Module Composer.

(** The title that [export_note_to_markdown] gives the note [pk]. *)
Definition export_title (pk : Z) (title summary : option pystr)
    (content_ph : pystr) : pystr :=
  if truthy_opt title then or_else title []
  else
    let first_line :=
      if truthy (strip content_ph) then
        let potential_title :=
          strip (before_first NEWLINE (strip content_ph)) in
        if negb (startswith potential_title (str "![ATTACHMENT"))
        then Some (py_slice potential_title 0 80)
        else None
      else None in
    if truthy_opt first_line then or_else first_line []
    else
      if truthy_opt summary
      then strip (py_slice (or_else summary []) 0 80)
      else str "Untitled_Note_" ++ of_Z pk.

End Composer.

(** ** Aggregated corpus *)

Module Corpus.

(** The title that [append_note_to_llm_file] gives the note [pk]. *)
Definition llm_title (pk : Z) (title summary : option pystr)
    (text_content : pystr) : pystr :=
  if truthy_opt title then or_else title []
  else
    let first_line :=
      if truthy (strip text_content) then
        Some (py_slice
                (strip (before_first NEWLINE (strip text_content))) 0 80)
      else None in
    if truthy_opt first_line then or_else first_line []
    else
      if truthy_opt summary
      then strip (py_slice (or_else summary []) 0 80)
      else str "Untitled_Note_" ++ of_Z pk.

End Corpus.

(** ** Notes, folders and entity numbers *)

Module Catalog.

Import Storage.

(** The dictionary that [get_entity_ids] starts from. *)
Definition default_entity_ids : gmap pystr Z :=
  <[str "ICNote" := 10%Z]>
    (<[str "ICFolder" := 5%Z]>
       (<[str "ICAttachment" := 7%Z]>
          (<[str "ICMedia" := 8%Z]> (<[str "ICAccount" := 1%Z]> ∅)))).

(** Body of the loop over the rows of Z_PRIMARYKEY. *)
Definition override (entity_ids : gmap pystr Z) (row : pystr * Z)
    : gmap pystr Z :=
  let '(name, ent_id) := row in
  if bool_decide (is_Some (entity_ids !! name))
  then <[name := ent_id]> entity_ids
  else entity_ids.

(** [get_entity_ids]; the table is the result of [fetchall], or [None] when
    the query raises [sqlite3.OperationalError]. *)
Definition get_entity_ids (z_primarykey : option (list (pystr * Z)))
    : gmap pystr Z :=
  match z_primarykey with
  | Some rows => fold_left override rows default_entity_ids
  | None => default_entity_ids
  end.

(** The five subscripts [ids['...']] that the export makes; [None] stands
    for [KeyError]. *)
Definition entity_ids_record (ids : gmap pystr Z) : option EntityIds :=
  n ← ids !! str "ICNote";
  f ← ids !! str "ICFolder";
  a ← ids !! str "ICAttachment";
  m ← ids !! str "ICMedia";
  c ← ids !! str "ICAccount";
  Some {| ICNote := n; ICFolder := f; ICAttachment := a; ICMedia := m;
          ICAccount := c |}.

Definition DEFAULT_FOLDER_TYPE_TRASH : Z := 1.
Definition DEFAULT_FOLDER_TYPE_SMART : Z := 3.

(** The process-wide caches of folder types, folder owners and note
    owners. *)
Record Caches := {
  folder_type_cache : gmap Z (option Z);
  folder_owner_cache : gmap Z (option Z);
  note_owner_cache : gmap Z (option Z)
}.

Definition no_caches : Caches :=
  {| folder_type_cache := ∅; folder_owner_cache := ∅;
     note_owner_cache := ∅ |}.

Section WithTimestamps.

(** The type of the values of the two date columns. *)
Variable T : Type.

(** A row of the query for the notes. *)
Record NoteRow := {
  r_pk : Z;
  r_title : option pystr;
  r_snip : option pystr;
  r_cr : option T;
  r_mod : option T;
  r_f_pk : option Z;
  r_nd_pk : option Z
}.

(** A tuple of the list that [get_notes_and_owners] returns. *)
Record NoteOut := {
  n_pk : Z;
  n_title : option pystr;
  n_summary : option pystr;
  n_created : option T;
  n_modified : option T;
  n_owner_pk : option Z;
  n_blob : bytes
}.

(** The queries: owner, parent and type of a folder; all the notes; the
    data of a note. *)
Record Db := {
  q_folder : Z -> Z -> qresult (option Z * option Z * option Z);
  q_notes : Z -> option (list NoteRow);
  q_data : Z -> qresult (option bytes)
}.

(** [get_folder_info], with [folder_type_cache] passed in and returned. *)
Definition get_folder_info (db : Db) (ftc : gmap Z (option Z))
    (folder_pk : option Z) (z_ent_folder : Z)
    : (option Z * option Z * option Z) * gmap Z (option Z) :=
  match folder_pk with
  | None => ((None, None, None), ftc)
  | Some pk =>
      let folder_type := mjoin (ftc !! pk) in
      match q_folder db pk z_ent_folder with
      | Row (owner_pk, parent_pk, db_type) =>
          ((owner_pk, parent_pk, db_type),
           if bool_decide (is_Some (ftc !! pk)) then ftc
           else <[pk := db_type]> ftc)
      | NoRow => ((None, None, None), <[pk := None]> ftc)
      | OperationalError _ => ((None, None, folder_type), ftc)
      end
  end.

Definition with_folder_types (c : Caches) (ftc : gmap Z (option Z))
    : Caches :=
  {| folder_type_cache := ftc;
     folder_owner_cache := folder_owner_cache c;
     note_owner_cache := note_owner_cache c |}.

Definition with_folder_owner (c : Caches) (pk : Z) (owner : option Z)
    : Caches :=
  {| folder_type_cache := folder_type_cache c;
     folder_owner_cache := <[pk := owner]> (folder_owner_cache c);
     note_owner_cache := note_owner_cache c |}.

Definition with_note_owner (c : Caches) (pk : Z) (owner : option Z)
    : Caches :=
  {| folder_type_cache := folder_type_cache c;
     folder_owner_cache := folder_owner_cache c;
     note_owner_cache := <[pk := owner]> (note_owner_cache c) |}.

(** [resolve_folder_owner], for calls nested at most [limit] deep; [None]
    is the [RecursionError] of a deeper nesting. *)
Fixpoint resolve_folder_owner (limit : nat) (db : Db) (c : Caches)
    (folder_pk : option Z) (z_ent_folder : Z) : option (option Z * Caches) :=
  match limit with
  | 0 => None
  | S limit' =>
      match folder_pk with
      | None => Some (None, c)
      | Some pk =>
          match folder_owner_cache c !! pk with
          | Some owner => Some (owner, c)
          | None =>
              let '((owner_pk, parent_pk, _), ftc) :=
                get_folder_info db (folder_type_cache c) (Some pk)
                  z_ent_folder in
              let c1 := with_folder_types c ftc in
              match owner_pk, parent_pk with
              | Some o, _ => Some (Some o, with_folder_owner c1 pk (Some o))
              | None, Some parent =>
                  match resolve_folder_owner limit' db c1 (Some parent)
                          z_ent_folder with
                  | Some (final_owner, c2) =>
                      Some (final_owner, with_folder_owner c2 pk final_owner)
                  | None => None
                  end
              | None, None => Some (None, with_folder_owner c1 pk None)
              end
          end
      end
  end.

(** The counters of skipped notes. *)
Record Skips := {
  trash : nat;
  smart : nat;
  no_data : nat;
  no_folder : nat
}.

(** How [get_notes_and_owners] ends: with its list after the last row, with
    the list gathered so far when a query raises [OperationalError], or
    with the [RecursionError] that it does not catch. *)
Inductive ending :=
| Returned (notes : list NoteOut) (c : Caches) (skips : Skips)
| Interrupted (notes : list NoteOut) (c : Caches)
| RecursionError.

Definition truthy_blob (b : option bytes) : option bytes :=
  match b with
  | Some (x :: rest) => Some (x :: rest)
  | _ => None
  end.

(** The loop over the rows, from the loop state [(notes, caches, skips)]. *)
Fixpoint notes_loop (limit : nat) (db : Db) (z_ent_folder : Z)
    (rows : list NoteRow) (notes : list NoteOut) (c : Caches) (sk : Skips)
    : ending :=
  match rows with
  | [] => Returned notes c sk
  | row :: rest =>
      let continue := notes_loop limit db z_ent_folder rest in
      match r_nd_pk row, r_f_pk row with
      | None, _ =>
          continue notes c
            {| trash := trash sk; smart := smart sk;
               no_data := S (no_data sk); no_folder := no_folder sk |}
      | Some _, None =>
          continue notes c
            {| trash := trash sk; smart := smart sk;
               no_data := no_data sk; no_folder := S (no_folder sk) |}
      | Some nd_pk, Some f_pk =>
          let '((_, _, f_type), ftc) :=
            get_folder_info db (folder_type_cache c) (Some f_pk)
              z_ent_folder in
          let c1 := with_folder_types c ftc in
          match f_type with
          | None =>
              continue notes c1
                {| trash := trash sk; smart := smart sk;
                   no_data := no_data sk; no_folder := S (no_folder sk) |}
          | Some t =>
              if (t =? DEFAULT_FOLDER_TYPE_SMART)%Z then
                continue notes c1
                  {| trash := trash sk; smart := S (smart sk);
                     no_data := no_data sk; no_folder := no_folder sk |}
              else if (t =? DEFAULT_FOLDER_TYPE_TRASH)%Z then
                continue notes c1
                  {| trash := S (trash sk); smart := smart sk;
                     no_data := no_data sk; no_folder := no_folder sk |}
              else
                match resolve_folder_owner limit db c1 (Some f_pk)
                        z_ent_folder with
                | None => RecursionError
                | Some (owner_pk, c2) =>
                    let c3 := with_note_owner c2 (r_pk row) owner_pk in
                    match q_data db nd_pk with
                    | OperationalError _ => Interrupted notes c3
                    | r =>
                        let blob :=
                          match r with Row b => b | _ => None end in
                        match truthy_blob blob with
                        | Some b =>
                            continue
                              (notes ++
                               [{| n_pk := r_pk row; n_title := r_title row;
                                   n_summary := r_snip row;
                                   n_created := r_cr row;
                                   n_modified := r_mod row;
                                   n_owner_pk := owner_pk; n_blob := b |}])
                              c3 sk
                        | None =>
                            continue notes c3
                              {| trash := trash sk; smart := smart sk;
                                 no_data := S (no_data sk);
                                 no_folder := no_folder sk |}
                        end
                    end
                end
          end
      end
  end.

(** [get_notes_and_owners]; [limit] bounds the nesting of
    [resolve_folder_owner]. *)
Definition get_notes_and_owners (limit : nat) (db : Db) (c : Caches)
    (z_ent_note z_ent_folder : Z) : ending :=
  match q_notes db z_ent_note with
  | None => Interrupted [] c
  | Some all_notes =>
      notes_loop limit db z_ent_folder all_notes [] c
        {| trash := 0; smart := 0; no_data := 0; no_folder := 0 |}
  end.

(** The list that the caller receives, when it receives one. *)
Definition gathered (e : ending) : list NoteOut :=
  match e with
  | Returned notes _ _ | Interrupted notes _ => notes
  | RecursionError => []
  end.

Definition skipped (sk : Skips) : nat :=
  trash sk + smart sk + no_data sk + no_folder sk.

End WithTimestamps.

Arguments Returned {T} notes c skips.
Arguments Interrupted {T} notes c.
Arguments RecursionError {T}.

End Catalog.

(** ** Sample inputs *)

Module Samples.

(** The raw deflate stream of [b"hi"]: [zlib.compress(b"hi")] without its
    two-byte header and four-byte checksum. *)
Definition raw_hi : bytes := [xcb; xc8; x04; x00].

Definition hi : bytes := [x68; x69].

(** An inflate that knows one stream: [raw_hi] read as raw deflate.  Every
    other input, the empty one included, is a format error. *)
Definition inflate_raw_hi (wbits : Z) (data : bytes) : Zlib.zresult :=
  match Zlib.container_of_wbits wbits with
  | Some Zlib.RawDeflate =>
      if bool_decide (map Byte.to_N data = map Byte.to_N raw_hi)
      then Zlib.ZOk hi
      else Zlib.ZError
  | _ => Zlib.ZError
  end.

(** An inflate that accepts the gzip framing only and returns its input. *)
Definition inflate_gzip_id (wbits : Z) (data : bytes) : Zlib.zresult :=
  match Zlib.container_of_wbits wbits with
  | Some Zlib.GzipFramed => Zlib.ZOk data
  | _ => Zlib.ZError
  end.

(** An inflate for which nothing is a valid stream. *)
Definition inflate_fails (wbits : Z) (data : bytes) : Zlib.zresult :=
  Zlib.ZError.

(** A parser that yields the given note whatever the bytes. *)
Definition parse_as (n : Proto.Note) (raw : bytes)
    : option Proto.NoteStoreProto :=
  Some {| Proto.document := Some {| Proto.note := Some n |} |}.

Definition blob1 : option bytes := Some [x01].

(** Buffer ["Before?After"] with runs 5, 1 (attachment A1, public.jpeg), 5. *)
Definition before_after : Proto.Note :=
  {| Proto.noteText := str "Before?After";
     Proto.attributeRun :=
       [Proto.text_run 5;
        Proto.attachment_run 1 (str "A1") (str "public.jpeg");
        Proto.text_run 5] |}.

(** Buffer ["Hello World"] with the single run of length 11. *)
Definition hello_world : Proto.Note :=
  {| Proto.noteText := str "Hello World";
     Proto.attributeRun := [Proto.text_run 11] |}.

(** A plain note without runs whose buffer starts with a space. *)
Definition padded : Proto.Note :=
  {| Proto.noteText := str " a"; Proto.attributeRun := [] |}.

(** A library for ASCII text: letters and digits are alphanumeric, [lower]
    maps A-Z to a-z, no extension is guessed, and stem and suffix split a
    name at its last dot when the dot is neither first nor last. *)
Definition ascii_isalnum (c : N) : bool :=
  ((48 <=? c) && (c <=? 57) || (65 <=? c) && (c <=? 90)
   || (97 <=? c) && (c <=? 122))%N.

Definition ascii_lower (s : pystr) : pystr :=
  map (fun c => if ((65 <=? c) && (c <=? 90))%N then (c + 32)%N else c) s.

Fixpoint last_dot (s : pystr) (i : nat) (found : option nat) : option nat :=
  match s with
  | [] => found
  | c :: s' => last_dot s' (S i) (if (c =? 46)%N then Some i else found)
  end.

Definition split_suffix (s : pystr) : pystr * pystr :=
  match last_dot s 0 None with
  | Some i =>
      if (0 <? i) && (S i <? length s) then (take i s, drop i s) else (s, [])
  | None => (s, [])
  end.

Definition ascii_lib : Storage.PyLib :=
  {| Storage.isalnum := ascii_isalnum;
     Storage.lower := ascii_lower;
     Storage.guess_extension := fun _ => None;
     Storage.path_stem := fun s => fst (split_suffix s);
     Storage.path_suffix := fun s => snd (split_suffix s) |}.

Definition ids : Storage.EntityIds :=
  {| Storage.ICNote := 10; Storage.ICFolder := 5; Storage.ICAttachment := 7;
     Storage.ICMedia := 8; Storage.ICAccount := 1 |}.

Definition export_dir : Storage.path := [str "exported_notes"].

(** A store with no rows and no files, where every copy fails. *)
Definition bare : Storage.World :=
  {| Storage.q_account := fun _ _ => Storage.NoRow;
     Storage.q_att := fun _ _ => Storage.NoRow;
     Storage.q_med := fun _ _ => Storage.NoRow;
     Storage.q_med_fb := fun _ _ => Storage.NoRow;
     Storage.q_fallback_image := fun _ _ => Storage.NoRow;
     Storage.q_fallback_pdf := fun _ _ => Storage.NoRow;
     Storage.q_gallery := fun _ _ => Storage.NoRow;
     Storage.path_exists := fun _ => false;
     Storage.copy2 := fun _ _ => false |}.

(** A store that holds one attachment row, whatever the identifier asked
    for: primary key [pk], UTI [uti], linked to the media row 3 with
    identifier M and file name [fname]; the listed paths exist, and copies
    succeed when [copy_ok]. *)
Definition store (pk : Z) (uti : option pystr) (fname : pystr)
    (files : list Storage.path) (copy_ok : bool) : Storage.World :=
  {| Storage.q_account := fun _ _ => Storage.NoRow;
     Storage.q_att := fun _ _ => Storage.Row (pk, uti, Some 3%Z);
     Storage.q_med := fun _ _ =>
       Storage.Row (Some (str "M"), Some fname, None);
     Storage.q_med_fb := fun _ _ => Storage.NoRow;
     Storage.q_fallback_image := fun _ _ =>
       Storage.Row (Some (str "D1"), None);
     Storage.q_fallback_pdf := fun _ _ =>
       Storage.Row (Some (str "P1"), Some (str "g2"));
     Storage.q_gallery := fun _ _ => Storage.NoRow;
     Storage.path_exists := fun p => bool_decide (p ∈ files);
     Storage.copy2 := fun _ _ => copy_ok |}.

Definition media_file : Storage.path :=
  Storage.NOTES_DATA_PATH ++ [str "Media"; str "M"; str "f.jpg"].

Definition drawing_jpg : Storage.path :=
  Storage.NOTES_DATA_PATH ++ [str "FallbackImages"; str "D1.jpg"].

Definition drawing_png : Storage.path :=
  Storage.NOTES_DATA_PATH ++ [str "FallbackImages"; str "D1.png"].

Definition scan_pdf_file : Storage.path :=
  Storage.NOTES_DATA_PATH
  ++ [str "FallbackPDFs"; str "P1"; str "g2"; str "FallbackPDF.pdf"].

(** The media file is there while the first placeholder is processed, its
    copy fails, and the file is gone afterwards. *)
Definition deleted_after_first (k : nat) : Storage.World :=
  match k with
  | 0 => store 7 (Some (str "public.jpeg")) (str "f.jpg") [media_file] false
  | S _ => store 7 (Some (str "public.jpeg")) (str "f.jpg") [] false
  end.

Definition two_placeholders : pystr :=
  str "![ATTACHMENT|A|public.jpeg]+![ATTACHMENT|A|public.jpeg]".

(** A note with one link placeholder, the loop state on entry, and the
    match of the token. *)
Definition link_note : pystr :=
  str "see ![ATTACHMENT|L1|com.apple.notes.inlinetextattachment.link] here".

Definition link_state : Substitute.state :=
  {| Substitute.processed := link_note; Substitute.offset := 0;
     Substitute.processed_cache := ∅; Substitute.events := [] |}.

Definition link_match : Substitute.rmatch :=
  {| Substitute.m_start := 4; Substitute.m_end := 62; Substitute.m_att_id := str "L1";
     Substitute.m_uti_ph := str "com.apple.notes.inlinetextattachment.link" |}.

(** Where the copy of [media_file] goes for the attachment with primary
    key 7. *)
Definition copied_file : Storage.path :=
  export_dir ++ [str "_attachments"; str "f_7.jpg"].

(** The loop state on entry for [two_placeholders] and the match of its
    first token. *)
Definition two_state : Substitute.state :=
  {| Substitute.processed := two_placeholders; Substitute.offset := 0;
     Substitute.processed_cache := ∅; Substitute.events := [] |}.

Definition first_match : Substitute.rmatch :=
  {| Substitute.m_start := 0; Substitute.m_end := 27;
     Substitute.m_att_id := str "A";
     Substitute.m_uti_ph := str "public.jpeg" |}.

(** The media row is there but its file is not; and the same store once
    the file has appeared. *)
Definition file_missing : Storage.World :=
  store 7 (Some (str "public.jpeg")) (str "f.jpg") [] false.

Definition file_present : Storage.World :=
  store 7 (Some (str "public.jpeg")) (str "f.jpg") [media_file] true.

(** An inflate that accepts every stream and returns no bytes. *)
Definition inflate_empty (wbits : Z) (data : bytes) : Zlib.zresult :=
  Zlib.ZOk [].

(** Buffer ["Hello World"] with two plain runs, 2 and 3, that stop short
    of its end. *)
Definition short_runs : Proto.Note :=
  {| Proto.noteText := str "Hello World";
     Proto.attributeRun := [Proto.text_run 2; Proto.text_run 3] |}.

(** Buffer [" a "] under one plain run of length 3. *)
Definition padded_run : Proto.Note :=
  {| Proto.noteText := str " a ";
     Proto.attributeRun := [Proto.text_run 3] |}.

(** A store in which the attachment row is there and the query for its
    media row raises an error that does not name the generation column. *)
Definition media_query_fails : Storage.World :=
  {| Storage.q_account := fun _ _ => Storage.NoRow;
     Storage.q_att := fun _ _ =>
       Storage.Row (7%Z, Some (str "public.jpeg"), Some 3%Z);
     Storage.q_med := fun _ _ => Storage.OperationalError false;
     Storage.q_med_fb := fun _ _ => Storage.NoRow;
     Storage.q_fallback_image := fun _ _ => Storage.NoRow;
     Storage.q_fallback_pdf := fun _ _ => Storage.NoRow;
     Storage.q_gallery := fun _ _ => Storage.NoRow;
     Storage.path_exists := fun _ => true;
     Storage.copy2 := fun _ _ => true |}.

(** A store whose only row is that of an account with identifier U. *)
Definition account_store : Storage.World :=
  {| Storage.q_account := fun _ _ => Storage.Row (Some (str "U"));
     Storage.q_att := fun _ _ => Storage.NoRow;
     Storage.q_med := fun _ _ => Storage.NoRow;
     Storage.q_med_fb := fun _ _ => Storage.NoRow;
     Storage.q_fallback_image := fun _ _ => Storage.NoRow;
     Storage.q_fallback_pdf := fun _ _ => Storage.NoRow;
     Storage.q_gallery := fun _ _ => Storage.NoRow;
     Storage.path_exists := fun _ => false;
     Storage.copy2 := fun _ _ => false |}.

(** Two folders without owner, each the parent of the other. *)
Definition folder_cycle : Catalog.Db unit :=
  {| Catalog.q_folder := fun pk _ =>
       Storage.Row (None, Some (if (pk =? 1)%Z then 2%Z else 1%Z), Some 0%Z);
     Catalog.q_notes := fun _ => Some [];
     Catalog.q_data := fun _ => Storage.NoRow |}.

(** Folder 1 inside folder 2 inside folder 3, which alone has an owner, 9;
    two notes in folder 1, the second without data row; and a note in the
    trash folder 4. *)
Definition nested_folders : Catalog.Db unit :=
  {| Catalog.q_folder := fun pk _ =>
       if (pk =? 1)%Z then Storage.Row (None, Some 2%Z, Some 0%Z)
       else if (pk =? 2)%Z then Storage.Row (None, Some 3%Z, Some 0%Z)
       else if (pk =? 3)%Z then Storage.Row (Some 9%Z, None, Some 0%Z)
       else if (pk =? 4)%Z then Storage.Row (Some 9%Z, None, Some 1%Z)
       else Storage.NoRow;
     Catalog.q_notes := fun _ =>
       Some [ {| Catalog.r_pk := 100; Catalog.r_title := Some (str "n");
                 Catalog.r_snip := None; Catalog.r_cr := None;
                 Catalog.r_mod := None; Catalog.r_f_pk := Some 1%Z;
                 Catalog.r_nd_pk := Some 50%Z |};
              {| Catalog.r_pk := 101; Catalog.r_title := None;
                 Catalog.r_snip := None; Catalog.r_cr := None;
                 Catalog.r_mod := None; Catalog.r_f_pk := Some 1%Z;
                 Catalog.r_nd_pk := Some 51%Z |};
              {| Catalog.r_pk := 102; Catalog.r_title := None;
                 Catalog.r_snip := None; Catalog.r_cr := None;
                 Catalog.r_mod := None; Catalog.r_f_pk := Some 4%Z;
                 Catalog.r_nd_pk := Some 50%Z |} ];
     Catalog.q_data := fun nd =>
       if (nd =? 50)%Z then Storage.Row (Some [x01]) else Storage.NoRow |}.

(** A store in which the query for the account raises. *)
Definition account_query_fails : Storage.World :=
  {| Storage.q_account := fun _ _ => Storage.OperationalError false;
     Storage.q_att := fun _ _ => Storage.NoRow;
     Storage.q_med := fun _ _ => Storage.NoRow;
     Storage.q_med_fb := fun _ _ => Storage.NoRow;
     Storage.q_fallback_image := fun _ _ => Storage.NoRow;
     Storage.q_fallback_pdf := fun _ _ => Storage.NoRow;
     Storage.q_gallery := fun _ _ => Storage.NoRow;
     Storage.path_exists := fun _ => false;
     Storage.copy2 := fun _ _ => false |}.

(** A note that starts with a picture on a line of its own, followed by the
    line "Hello World": U+FFFC and a line break under an attachment run,
    then the text. *)
Definition picture_first : Proto.Note :=
  {| Proto.noteText := [OBJECT_REPLACEMENT; NEWLINE] ++ str "Hello World";
     Proto.attributeRun :=
       [Proto.attachment_run 1 (str "A1") (str "public.jpeg");
        Proto.text_run 12] |}.

End Samples.

(** * Properties *)

(** ** Run walker *)

Module ReconstructProps.

Import Reconstruct.

Lemma decode_with_note zl parse blob n f :
  decodes_to zl parse blob n -> decode_with zl parse f blob = f n.
Proof.
  intros [Hb (raw & proto & doc & Hz & Hraw & Hp & Hd & Hn)].
  unfold decode_with. rewrite Hb, Hz. simpl.
  destruct raw as [|b raw]; [congruence|]. simpl.
  now rewrite Hp, Hd, Hn.
Qed.

(** The accumulating loop and the design's positional walk agree from any
    loop state. *)
Lemma fold_body_walk_spec m content runs text pos :
  fold_left (body_of m content) runs (text, pos)
  = (text ++ walk_spec m content pos runs, pos + total_length runs).
Proof.
  revert text pos.
  induction runs as [|run rest IH]; intros text pos; simpl.
  - rewrite app_nil_r. f_equal. unfold total_length. simpl. lia.
  - assert (Hstep : body_of m content (text, pos) run
        = (text ++ contribution m content pos run, pos + Proto.length run)).
    { unfold contribution.
      destruct m; simpl; destruct (Proto.attachmentInfo run); simpl;
        rewrite ?app_nil_r; reflexivity. }
    rewrite Hstep, IH. rewrite <- app_assoc. f_equal.
    unfold total_length. simpl. lia.
Qed.

Lemma walk_walk_spec m content runs :
  walk m content runs = (walk_spec m content 0 runs, total_length runs).
Proof. unfold walk. now rewrite fold_body_walk_spec. Qed.

Lemma note_text_runs n :
  Proto.attributeRun n <> [] ->
  note_text n
  = walk_spec WithPlaceholders (Proto.noteText n) 0 (Proto.attributeRun n).
Proof.
  intros Hne. unfold note_text.
  destruct (Proto.attributeRun n) as [|r rs] eqn:E; [congruence|].
  now rewrite walk_walk_spec.
Qed.

Lemma note_text_only_runs n :
  Proto.attributeRun n <> [] ->
  note_text_only n
  = strip (remove_char OBJECT_REPLACEMENT
      (walk_spec TextOnly (Proto.noteText n) 0 (Proto.attributeRun n))).
Proof.
  intros Hne. unfold note_text_only.
  destruct (Proto.attributeRun n) as [|r rs] eqn:E; [congruence|].
  now rewrite walk_walk_spec.
Qed.

(** C1.  For a note with a non-empty run sequence, reconstruction walks the
    runs in order with a cursor that starts at 0 and advances by each run's
    length L: with placeholders the output is, run by run, the slice
    noteText[P:P+L] for a run without attachmentInfo and the token
    ![ATTACHMENT|id|uti] (none of the L buffer characters) for a run with
    attachmentInfo; the text-only walk appends the slice for a run without
    attachmentInfo and nothing otherwise (its result is then cleaned of
    U+FFFC and stripped). *)
Theorem reconstruct_walks_runs_in_order zl parse blob n :
  decodes_to zl parse blob n ->
  Proto.attributeRun n <> [] ->
  let content := Proto.noteText n in
  let runs := Proto.attributeRun n in
  reconstruct zl parse WithPlaceholders blob
    = walk_spec WithPlaceholders content 0 runs
  /\ walk WithPlaceholders content runs
    = (walk_spec WithPlaceholders content 0 runs, total_length runs)
  /\ walk TextOnly content runs
    = (walk_spec TextOnly content 0 runs, total_length runs)
  /\ reconstruct zl parse TextOnly blob
    = strip (remove_char OBJECT_REPLACEMENT
        (walk_spec TextOnly content 0 runs)).
Proof.
  intros Hdec Hne content runs. simpl.
  unfold decode_note_protobuf, decode_note_protobuf_text_only.
  rewrite !(decode_with_note _ _ _ _ _ Hdec).
  rewrite (note_text_runs _ Hne), (note_text_only_runs _ Hne).
  rewrite !walk_walk_spec. auto.
Qed.

Lemma sample_decodes n :
  decodes_to Samples.inflate_gzip_id (Samples.parse_as n) Samples.blob1 n.
Proof.
  split; [reflexivity|].
  exists [x01], {| Proto.document := Some {| Proto.note := Some n |} |},
    {| Proto.note := Some n |}.
  repeat split; try reflexivity. discriminate.
Qed.

Lemma reconstruct_walks_runs_in_order_witness :
  reconstruct Samples.inflate_gzip_id (Samples.parse_as Samples.before_after)
    WithPlaceholders Samples.blob1
  = str "Befor![ATTACHMENT|A1|public.jpeg]?Afte".
Proof.
  pose proof (reconstruct_walks_runs_in_order
    Samples.inflate_gzip_id (Samples.parse_as Samples.before_after)
    Samples.blob1 Samples.before_after
    (sample_decodes _) ltac:(discriminate)) as [H _].
  rewrite H. reflexivity.
Defined.

Lemma body_of_cursor m content st run :
  snd (body_of m content st run) = snd st + Proto.length run.
Proof.
  destruct st as [text pos].
  destruct m; simpl; destruct (Proto.attachmentInfo run); reflexivity.
Qed.

Lemma py_slice_length content P L :
  P + L <= length content -> length (py_slice content P (P + L)) = L.
Proof.
  intros H. unfold py_slice. rewrite length_take, length_drop. lia.
Qed.

Lemma walk_states_in_bounds m content runs st :
  snd st + total_length runs <= length content ->
  Forall2 (fun st run =>
      length (py_slice content (snd st) (snd st + Proto.length run))
        = Proto.length run
      /\ snd st + Proto.length run <= length content)
    (walk_states m content runs st) runs.
Proof.
  revert st. induction runs as [|run rest IH]; intros st Hsum; simpl.
  - constructor.
  - unfold total_length in Hsum. simpl in Hsum.
    fold (total_length rest) in Hsum.
    constructor.
    + split; [apply py_slice_length|]; lia.
    + apply IH. rewrite body_of_cursor. lia.
Qed.

(** C8.  When the run lengths of a note sum to the length of its text
    buffer, the walk consumes exactly the buffer: the cursor ends at the
    buffer length, the slice noteText[P:P+L] taken at every run has length
    exactly L, and no slice reaches past the end of the buffer. *)
Theorem walk_consumes_buffer_exactly m content runs :
  total_length runs = length content ->
  snd (walk m content runs) = length content
  /\ Forall2 (fun st run =>
        length (py_slice content (snd st) (snd st + Proto.length run))
          = Proto.length run
        /\ snd st + Proto.length run <= length content)
      (walk_states m content runs ([], 0)) runs.
Proof.
  intros Hsum. split.
  - rewrite walk_walk_spec. exact Hsum.
  - apply walk_states_in_bounds. simpl. lia.
Qed.

Lemma walk_consumes_buffer_exactly_witness :
  snd (walk WithPlaceholders (str "Hello World") [Proto.text_run 11]) = 11.
Proof.
  exact (proj1 (walk_consumes_buffer_exactly WithPlaceholders
    (str "Hello World") [Proto.text_run 11] eq_refl)).
Defined.

(** In text-only mode a plain note whose buffer has surrounding white space
    does not come back unchanged. *)
Lemma text_only_changes_plain_note :
  Proto.attributeRun Samples.padded = []
  /\ reconstruct Samples.inflate_gzip_id (Samples.parse_as Samples.padded)
       TextOnly Samples.blob1 = str "a"
  /\ reconstruct Samples.inflate_gzip_id (Samples.parse_as Samples.padded)
       TextOnly Samples.blob1 <> Proto.noteText Samples.padded.
Proof. repeat split. vm_compute. discriminate. Qed.

(** C5 (amended).  A note without attribute runs reconstructs, with
    placeholders, to exactly its stored text buffer; in text-only mode it
    reconstructs to the buffer with U+FFFC removed and surrounding white
    space stripped. *)
Theorem plain_note_round_trip zl parse blob n :
  decodes_to zl parse blob n ->
  Proto.attributeRun n = [] ->
  reconstruct zl parse WithPlaceholders blob = Proto.noteText n
  /\ reconstruct zl parse TextOnly blob
     = strip (remove_char OBJECT_REPLACEMENT (Proto.noteText n)).
Proof.
  intros Hdec Hruns. simpl.
  unfold decode_note_protobuf, decode_note_protobuf_text_only.
  rewrite !(decode_with_note _ _ _ _ _ Hdec).
  unfold note_text, note_text_only. rewrite Hruns. auto.
Qed.

Lemma plain_note_round_trip_witness :
  reconstruct Samples.inflate_gzip_id (Samples.parse_as Samples.padded)
    WithPlaceholders Samples.blob1 = str " a".
Proof.
  exact (proj1 (plain_note_round_trip Samples.inflate_gzip_id
    (Samples.parse_as Samples.padded) Samples.blob1 Samples.padded
    (sample_decodes _) eq_refl)).
Defined.

End ReconstructProps.

(** ** Decompressor *)

Module ZlibProps.

Import Zlib Reconstruct.

(** The second attempt is not a raw-deflate inflate: on a raw deflate stream
    that a raw inflate would accept, the second call is made with the zlib
    framing and the decompressor fails.  And an empty blob, on which both
    attempts fail, does not reconstruct to the decompression sentinel. *)
Lemma second_attempt_is_not_raw_deflate :
  Samples.inflate_raw_hi (-15) Samples.raw_hi = ZOk Samples.hi
  /\ container_of_wbits (-15) = Some RawDeflate
  /\ decompress_gzip_data Samples.inflate_raw_hi (Some Samples.raw_hi) = None
  /\ map container_of_wbits
       (snd (decompress_calls Samples.inflate_raw_hi (Some Samples.raw_hi)))
     = [Some GzipFramed; Some ZlibFramed]
  /\ decompress_gzip_data Samples.inflate_fails (Some []) = None
  /\ decode_note_protobuf Samples.inflate_fails
       (Samples.parse_as Samples.padded) (Some [])
     = str "[No data blob]".
Proof. repeat split. Qed.

(** C4 (amended).  The decompressor first attempts a gzip-framed inflate and,
    when that raises a format error, retries with the default zlib-framed
    inflate; it fails only when the blob is absent or both attempts raise a
    format error; what it returns is the whole output of one of the two
    attempts; and a non-empty blob on which both attempts fail reconstructs
    to exactly "[Decompression failed]" in both modes, while an empty or
    absent blob reconstructs to "[No data blob]" in both modes, whatever the
    inflate would do with it. *)
Theorem decompress_two_attempts zl parse (data : bytes) :
  container_of_wbits (16 + MAX_WBITS) = Some GzipFramed
  /\ container_of_wbits MAX_WBITS = Some ZlibFramed
  /\ (forall out, zl (16 + MAX_WBITS)%Z data = ZOk out ->
        decompress_calls zl (Some data) = (Some out, [16 + MAX_WBITS]%Z))
  /\ (zl (16 + MAX_WBITS)%Z data = ZError ->
        snd (decompress_calls zl (Some data)) = [16 + MAX_WBITS; MAX_WBITS]%Z
        /\ decompress_gzip_data zl (Some data)
           = match zl MAX_WBITS data with
             | ZOk out => Some out
             | ZError => None
             end)
  /\ (forall blob, decompress_gzip_data zl blob = None ->
        blob = None
        \/ exists d, blob = Some d
             /\ zl (16 + MAX_WBITS)%Z d = ZError /\ zl MAX_WBITS d = ZError)
  /\ (forall blob out, decompress_gzip_data zl blob = Some out ->
        exists d, blob = Some d
          /\ (zl (16 + MAX_WBITS)%Z d = ZOk out
              \/ zl (16 + MAX_WBITS)%Z d = ZError /\ zl MAX_WBITS d = ZOk out))
  /\ (data <> [] ->
      zl (16 + MAX_WBITS)%Z data = ZError -> zl MAX_WBITS data = ZError ->
        forall m, reconstruct zl parse m (Some data)
                  = str "[Decompression failed]")
  /\ (forall m,
        reconstruct zl parse m None = str "[No data blob]"
        /\ reconstruct zl parse m (Some []) = str "[No data blob]").
Proof.
  unfold decompress_gzip_data.
  repeat apply conj;
    [| | | | | | |intros m; destruct m; split; reflexivity].
  - reflexivity.
  - reflexivity.
  - intros out H. simpl. now rewrite H.
  - intros H. simpl. rewrite H. now destruct (zl MAX_WBITS data).
  - intros [d|] H; [right|now left]. exists d. simpl in H.
    destruct (zl (16 + MAX_WBITS)%Z d) eqn:E1; [discriminate|].
    destruct (zl MAX_WBITS d) eqn:E2; [discriminate|]. auto.
  - intros [d|] out H; [|discriminate]. exists d. simpl in H.
    split; [reflexivity|].
    destruct (zl (16 + MAX_WBITS)%Z d) eqn:E1.
    + left. simpl in H. congruence.
    + destruct (zl MAX_WBITS d) eqn:E2; [|discriminate].
      right. simpl in H. split; congruence.
  - intros Hne H1 H2 m.
    destruct data as [|b data]; [congruence|].
    destruct m; simpl;
      unfold decode_note_protobuf, decode_note_protobuf_text_only,
        decode_with, decompress_gzip_data; simpl;
      rewrite H1, H2; reflexivity.
Qed.

Lemma decompress_two_attempts_witness :
  reconstruct Samples.inflate_fails
    (Samples.parse_as Samples.padded) WithPlaceholders (Some [x01])
  = str "[Decompression failed]".
Proof.
  refine (proj1 (proj2 (proj2 (proj2 (proj2 (proj2 (proj2
    (decompress_two_attempts Samples.inflate_fails
       (Samples.parse_as Samples.padded) [x01]))))))) _ eq_refl eq_refl
    WithPlaceholders).
  discriminate.
Defined.

End ZlibProps.

(** ** The substitution scan *)

Module ScanProps.

Import Storage Locator Substitute.

Lemma startswith_length s p :
  startswith s p = true -> length p <= length s.
Proof.
  revert s. induction p as [|a p IH]; intros s H; simpl; [lia|].
  destruct s as [|b s]; simpl in H; [discriminate|].
  apply andb_true_iff in H as [_ H]. apply IH in H. simpl. lia.
Qed.

Lemma match_here_bounds s len g1 g2 :
  match_here s = Some (len, g1, g2) -> 0 < len <= length s.
Proof.
  unfold match_here.
  destruct (startswith s (str "![ATTACHMENT|")) eqn:Hlit; [|discriminate].
  apply startswith_length in Hlit.
  set (lit := str "![ATTACHMENT|") in *.
  set (rest := drop (length lit) s).
  destruct (truthy (before_first BAR rest)
            && (length (before_first BAR rest) <? length rest)) eqn:H1;
    [|discriminate].
  apply andb_true_iff in H1 as [_ H1]. apply Nat.ltb_lt in H1.
  set (rest2 := drop (S (length (before_first BAR rest))) rest).
  destruct (truthy (before_first RBRACKET rest2)
            && (length (before_first RBRACKET rest2) <? length rest2)) eqn:H2;
    [|discriminate].
  apply andb_true_iff in H2 as [_ H2]. apply Nat.ltb_lt in H2.
  intros [= <- _ _].
  assert (length rest = length s - length lit)
    by (unfold rest; apply length_drop).
  assert (length rest2 = length rest - S (length (before_first BAR rest)))
    by (unfold rest2; apply length_drop).
  assert (length lit = 13) by reflexivity.
  lia.
Qed.

Lemma search_from_bounds s i m :
  search_from s i = Some m ->
  i <= m_start m /\ m_start m < m_end m /\ m_end m <= i + length s.
Proof.
  revert i. induction s as [|c s IH]; intros i; simpl.
  - destruct (match_here []) as [[[len g1] g2]|] eqn:E; [|discriminate].
    apply match_here_bounds in E. simpl in E. lia.
  - destruct (match_here (c :: s)) as [[[len g1] g2]|] eqn:E.
    + apply match_here_bounds in E. simpl in E.
      intros [= <-]. simpl. lia.
    + intros H. apply IH in H. lia.
Qed.

Lemma regex_search_bounds processed offset m :
  regex_search processed offset = Some m ->
  offset <= m_start m /\ m_start m < m_end m /\ m_end m <= length processed.
Proof.
  unfold regex_search. intros H.
  apply search_from_bounds in H. rewrite length_drop in H. lia.
Qed.

Section Scan.

Variable lib : PyLib.
Variable ids : EntityIds.

Lemma scan_step_splice w att_dir acc st st' :
  scan_step lib w ids att_dir acc st = Some st' ->
  exists m repl,
    regex_search (processed st) (offset st) = Some m
    /\ processed st' = take (m_start m) (processed st) ++ repl
                         ++ drop (m_end m) (processed st)
    /\ offset st' = length (take (m_start m) (processed st) ++ repl)
    /\ length (processed st') - offset st'
       < length (processed st) - offset st.
Proof.
  unfold scan_step.
  destruct (regex_search (processed st) (offset st)) as [m|] eqn:Hm;
    [|discriminate].
  destruct (resolve lib w ids att_dir acc (processed_cache st)
              (m_att_id m) (m_uti_ph m)) as [[repl c] evs].
  intros [= <-]. exists m, repl. simpl.
  apply regex_search_bounds in Hm.
  repeat split.
  - rewrite length_app, length_take. lia.
  - rewrite !length_app, length_take, length_drop. lia.
Qed.

Lemma scan_step_prefix w att_dir acc st st' :
  scan_step lib w ids att_dir acc st = Some st' ->
  offset st <= offset st'
  /\ take (offset st) (processed st') = take (offset st) (processed st).
Proof.
  intros H. destruct (scan_step_splice _ _ _ _ _ H)
    as (m & repl & Hm & Hp & Ho & _).
  apply regex_search_bounds in Hm.
  rewrite length_app, length_take in Ho.
  split; [lia|].
  rewrite Hp, take_app_le by (rewrite length_take; lia).
  rewrite take_take. f_equal. lia.
Qed.

Lemma scan_loop_terminates fuel env k att_dir acc st :
  length (processed st) - offset st < fuel ->
  exists st', scan_loop lib fuel env k ids att_dir acc st = Some st'.
Proof.
  revert k st. induction fuel as [|fuel IH]; intros k st Hlt; [lia|].
  simpl.
  destruct (scan_step lib (env k) ids att_dir acc st) as [st1|] eqn:E.
  - apply IH.
    destruct (scan_step_splice _ _ _ _ _ E) as (_ & _ & _ & _ & _ & Hdec).
    lia.
  - eauto.
Qed.

Lemma scan_loop_more_fuel fuel fuel' env k att_dir acc st st' :
  scan_loop lib fuel env k ids att_dir acc st = Some st' ->
  fuel <= fuel' ->
  scan_loop lib fuel' env k ids att_dir acc st = Some st'.
Proof.
  revert fuel' k st. induction fuel as [|fuel IH]; intros fuel' k st H Hle;
    [discriminate|].
  destruct fuel' as [|fuel']; [lia|]. simpl in *.
  destruct (scan_step lib (env k) ids att_dir acc st); [|assumption].
  apply IH; [assumption|lia].
Qed.

Lemma scan_loop_prefix fuel env k att_dir acc st st_f :
  scan_loop lib fuel env k ids att_dir acc st = Some st_f ->
  take (offset st) (processed st_f) = take (offset st) (processed st).
Proof.
  revert k st. induction fuel as [|fuel IH]; intros k st H; [discriminate|].
  simpl in H.
  destruct (scan_step lib (env k) ids att_dir acc st) as [st1|] eqn:E.
  - apply scan_step_prefix in E as [Hle Hpre].
    apply IH in H. rewrite <- Hpre.
    assert (Hcut : forall X : pystr,
      take (offset st) X = take (offset st) (take (offset st1) X)).
    { intros X. rewrite take_take. f_equal. lia. }
    rewrite (Hcut (processed st_f)), H. symmetry. apply Hcut.
  - now injection H as <-.
Qed.

(** C7.  The placeholder-substitution scan terminates on every text,
    whatever the replacements are: each iteration splices the replacement in
    at the offsets of the matched token and resumes right after the
    replacement, so the text left to scan shrinks strictly and the text
    before the resumption point, the replacement included, is never looked
    at or changed again.  The bound on the iterations in
    [process_attachments] is not felt: a larger one gives the same result. *)
Theorem substitution_scan_terminates env account_uuid_cache text note_pk
    owner_pk base_path :
  (exists st cache',
     process_attachments lib env account_uuid_cache text note_pk owner_pk
       base_path ids = Some (st, cache'))
  /\ (forall w att_dir acc st st',
        scan_step lib w ids att_dir acc st = Some st' ->
        exists m repl,
          regex_search (processed st) (offset st) = Some m
          /\ processed st' = take (m_start m) (processed st) ++ repl
                               ++ drop (m_end m) (processed st)
          /\ offset st' = length (take (m_start m) (processed st) ++ repl)
          /\ length (processed st') - offset st'
             < length (processed st) - offset st)
  /\ (forall fuel k att_dir acc st st_f,
        scan_loop lib fuel env k ids att_dir acc st = Some st_f ->
        take (offset st) (processed st_f) = take (offset st) (processed st))
  /\ (forall fuel fuel' k att_dir acc st st_f,
        scan_loop lib fuel env k ids att_dir acc st = Some st_f ->
        fuel <= fuel' ->
        scan_loop lib fuel' env k ids att_dir acc st = Some st_f).
Proof.
  split; [|split; [|split]]; [| | |intros; eapply scan_loop_more_fuel; eauto].
  - unfold process_attachments, initial_state.
    destruct (get_account_uuid _ _ _ _) as [[acc cache'] evs].
    edestruct (scan_loop_terminates (S (length text)) env 0
                 (base_path // ATTACHMENTS_SUBDIR)%log acc) as [st' Hst'];
      [|rewrite Hst'; eauto].
    simpl. lia.
  - intros. eapply scan_step_splice; eauto.
  - intros. eapply scan_loop_prefix; eauto.
Qed.

End Scan.

(** A replacement that itself contains a placeholder token (here through a
    file name of the media row) is left as it is: the scan ends and the
    token inside the replacement is not substituted. *)
Example token_inside_replacement_is_not_rescanned :
  match process_attachments Samples.ascii_lib
          (fun _ => Samples.store 7 None (str "![ATTACHMENT|x|y]") [] false)
          ∅ (str "a![ATTACHMENT|A|public.jpeg]b") 1 None
          Samples.export_dir Samples.ids with
  | Some (st, _) => Some (processed st)
  | None => None
  end = Some (str "a[Att source missing: ![ATTACHMENT|x|y]]b").
Proof. vm_compute. reflexivity. Qed.

End ScanProps.

(** ** Resolution of one placeholder *)

Module SubstituteProps.

Import Storage Locator Substitute.

Lemma bind_inv {A B} (m : M A) (k : A -> M B) b l :
  bind m k = (b, l) ->
  exists a l1 l2, m = (a, l1) /\ k a = (b, l2) /\ l = l1 ++ l2.
Proof.
  unfold bind. destruct m as [a l1]. destruct (k a) as [b' l2] eqn:E.
  intros [= <- <-]. eauto 6.
Qed.

Lemma eqb_refl (u : pystr) : eqb u u = true.
Proof. unfold eqb. now apply bool_decide_eq_true. Qed.

Lemma in_existsb_eqb (u : pystr) l : In u l -> existsb (eqb u) l = true.
Proof.
  intros H. apply existsb_exists. exists u. split; [assumption|].
  apply eqb_refl.
Qed.

Section Resolve.

Variable lib : PyLib.
Variable ids : EntityIds.
Variable att_dir : path.
Variable acc : option pystr.

Lemma resolve_non_file w cache att_id uti_ph :
  In uti_ph non_file ->
  resolve lib w ids att_dir acc cache att_id uti_ph
  = ((str "[Unsupported: " ++ uti_ph ++ str "]", cache), []).
Proof.
  intros H. unfold resolve. now rewrite (in_existsb_eqb _ _ H).
Qed.

(** C9.  A placeholder token whose declared UTI is in the non-file set is
    replaced by the marker [Unsupported: <uti>]; resolving it makes no
    database or file-system lookup (it emits no event at all) and leaves the
    memo as it is. *)
Theorem non_file_token_is_unsupported w st m :
  regex_search (processed st) (offset st) = Some m ->
  In (m_uti_ph m) non_file ->
  let repl := str "[Unsupported: " ++ m_uti_ph m ++ str "]" in
  resolve lib w ids att_dir acc (processed_cache st) (m_att_id m)
    (m_uti_ph m) = ((repl, processed_cache st), [])
  /\ scan_step lib w ids att_dir acc st
     = Some {| processed := take (m_start m) (processed st) ++ repl
                              ++ drop (m_end m) (processed st);
               offset := m_start m + length repl;
               processed_cache := processed_cache st;
               events := events st |}.
Proof.
  intros Hm Hin repl. split; [now apply resolve_non_file|].
  unfold scan_step. rewrite Hm, (resolve_non_file _ _ _ _ Hin).
  now rewrite app_nil_r.
Qed.

Lemma render_attachment d :
  d <> [] -> render ([ATTACHMENTS_SUBDIR] // d)%log = str "_attachments/" ++ d.
Proof. destruct d; [congruence|reflexivity]. Qed.

Lemma markup_scan eff_uti alt rel_path :
  contains (lower lib eff_uti) (str "scan") = true ->
  markup lib eff_uti alt rel_path
  = str "![" ++ alt ++ str "](" ++ rel_path ++ str ")".
Proof.
  intros H. unfold markup.
  assert (Himg : any_in img (lower lib eff_uti) = true).
  { apply existsb_exists. exists (str "scan"). split; [|assumption].
    unfold img. do 5 right. left. reflexivity. }
  now rewrite Himg.
Qed.

(** C10.  An attachment that is located and copied and whose effective UTI,
    lower-cased, contains "scan" is substituted by the embedded-image form
    ![alt](path), not by the PDF link: the image list, which holds "scan",
    is tested first. *)
Theorem scan_uti_is_embedded_as_image w cache att_id uti_ph d e1 src e2 :
  existsb (eqb uti_ph) non_file = false ->
  cache !! att_id = None ->
  get_attachment_and_media_details w att_id (ICAttachment ids) (ICMedia ids)
    = (d, e1) ->
  truthy_int (att_pk d) = true ->
  let eff_uti := or_else (uti d) uti_ph in
  let pk := default 0%Z (att_pk d) in
  find_attachment_source_path w pk eff_uti (med_id d) (fname d) (gen d)
    (ICAttachment ids) acc = (Some src, e2) ->
  let base_fname := or_else (fname d) (name src) in
  let safe_stem :=
    sanitize_filename lib (Some (path_stem lib base_fname)) false in
  let dest_fname :=
    safe_stem ++ str "_" ++ of_Z pk
    ++ get_extension_from_uti lib eff_uti (Some base_fname) in
  copy2 w src (att_dir // dest_fname)%log = true ->
  contains (lower lib eff_uti) (str "scan") = true ->
  let repl :=
    str "![" ++ replace_char 95 32 safe_stem ++ str "](_attachments/"
    ++ dest_fname ++ str ")" in
  resolve lib w ids att_dir acc cache att_id uti_ph
  = ((repl, <[att_id := (Some dest_fname, repl)]> cache),
     e1 ++ e2 ++ [FsCopy src (att_dir // dest_fname)%log]).
Proof.
  intros Hnf Hmiss Hd Hpk eff_uti pk Hsrc base_fname safe_stem dest_fname
    Hcopy Hscan repl.
  unfold resolve. rewrite Hnf, Hmiss. unfold bind at 1. rewrite Hd, Hpk.
  fold eff_uti pk. unfold bind at 1. rewrite Hsrc.
  unfold materialize, bind, emit.
  fold base_fname safe_stem dest_fname. rewrite Hcopy.
  rewrite (markup_scan _ _ _ Hscan), render_attachment.
  - unfold ret. rewrite app_nil_r.
    replace (str "![" ++ replace_char 95 32 safe_stem ++ str "]("
             ++ (str "_attachments/" ++ dest_fname) ++ str ")") with repl.
    + reflexivity.
    + unfold repl. now rewrite <- !app_assoc.
  - unfold dest_fname. destruct safe_stem; discriminate.
Qed.

Lemma resolve_memo_keeps w cache att_id uti_ph repl cache' evs key v :
  resolve lib w ids att_dir acc cache att_id uti_ph = ((repl, cache'), evs) ->
  cache !! key = Some v -> cache' !! key = Some v.
Proof.
  intros H Hk. unfold resolve in H.
  destruct (existsb (eqb uti_ph) non_file); [now injection H as <- <- <-|].
  destruct (cache !! att_id) as [[x r]|] eqn:Hc;
    [now injection H as <- <- <-|].
  assert (Hne : att_id <> key) by (intros ->; congruence).
  apply bind_inv in H as (d & l1 & l2 & _ & H & _).
  destruct (truthy_int (att_pk d)); [|now injection H as <- <- <-].
  apply bind_inv in H as (src & l3 & l4 & _ & H & _).
  destruct src as [src|].
  - unfold materialize in H.
    apply bind_inv in H as (copied & l5 & l6 & _ & H & _).
    destruct copied; injection H as <- <- <-; [|assumption].
    now rewrite lookup_insert_ne.
  - injection H as <- <- <-. now rewrite lookup_insert_ne.
Qed.

Lemma scan_step_memo_keeps w st st' key v :
  scan_step lib w ids att_dir acc st = Some st' ->
  processed_cache st !! key = Some v -> processed_cache st' !! key = Some v.
Proof.
  unfold scan_step.
  destruct (regex_search (processed st) (offset st)) as [m|]; [|discriminate].
  destruct (resolve lib w ids att_dir acc (processed_cache st)
              (m_att_id m) (m_uti_ph m)) as [[repl c] evs] eqn:E.
  intros [= <-] Hk. simpl. eapply resolve_memo_keeps; eauto.
Qed.

Lemma run_steps_memo_keeps n env k st st' key v :
  run_steps lib n env k ids att_dir acc st = Some st' ->
  processed_cache st !! key = Some v -> processed_cache st' !! key = Some v.
Proof.
  revert k st. induction n as [|n IH]; intros k st H Hk; simpl in H.
  - now injection H as <-.
  - destruct (scan_step lib (env k) ids att_dir acc st) as [st1|] eqn:E;
      [|discriminate].
    eapply IH; [eassumption|]. eapply scan_step_memo_keeps; eauto.
Qed.

Lemma resolve_hit w cache att_id uti_ph x repl :
  existsb (eqb uti_ph) non_file = false ->
  cache !! att_id = Some (x, repl) ->
  resolve lib w ids att_dir acc cache att_id uti_ph = ((repl, cache), []).
Proof. intros Hnf Hc. unfold resolve. now rewrite Hnf, Hc. Qed.

Lemma resolve_source_missing w cache att_id uti_ph d e1 e2 :
  existsb (eqb uti_ph) non_file = false ->
  cache !! att_id = None ->
  get_attachment_and_media_details w att_id (ICAttachment ids) (ICMedia ids)
    = (d, e1) ->
  truthy_int (att_pk d) = true ->
  find_attachment_source_path w (default 0%Z (att_pk d))
    (or_else (uti d) uti_ph) (med_id d) (fname d) (gen d)
    (ICAttachment ids) acc = (None, e2) ->
  let repl :=
    str "[Att source missing: " ++ or_else (fname d) att_id ++ str "]" in
  resolve lib w ids att_dir acc cache att_id uti_ph
  = ((repl, <[att_id := (None, repl)]> cache), e1 ++ e2 ++ []).
Proof.
  intros Hnf Hmiss Hd Hpk Hsrc repl.
  unfold resolve. rewrite Hnf, Hmiss. unfold bind at 1. rewrite Hd, Hpk.
  unfold bind at 1. rewrite Hsrc. reflexivity.
Qed.

(** C3 (amended).  When the resolution of a placeholder fails because the
    source file is missing, the identifier is recorded in the per-note memo
    with its error marker.  Every later placeholder of the note with the
    same identifier, and a declared UTI outside the non-file set, is
    replaced by the recorded marker without any further database or
    file-system lookup, whatever the database and the file system hold by
    then. *)
Theorem source_missing_is_memoized env k st m1 d e1 e2 :
  regex_search (processed st) (offset st) = Some m1 ->
  existsb (eqb (m_uti_ph m1)) non_file = false ->
  processed_cache st !! m_att_id m1 = None ->
  get_attachment_and_media_details (env k) (m_att_id m1) (ICAttachment ids)
    (ICMedia ids) = (d, e1) ->
  truthy_int (att_pk d) = true ->
  find_attachment_source_path (env k) (default 0%Z (att_pk d))
    (or_else (uti d) (m_uti_ph m1)) (med_id d) (fname d) (gen d)
    (ICAttachment ids) acc = (None, e2) ->
  let repl :=
    str "[Att source missing: " ++ or_else (fname d) (m_att_id m1)
    ++ str "]" in
  exists st1,
    scan_step lib (env k) ids att_dir acc st = Some st1
    /\ processed st1 = take (m_start m1) (processed st) ++ repl
                         ++ drop (m_end m1) (processed st)
    /\ processed_cache st1 !! m_att_id m1 = Some (None, repl)
    /\ forall n st2 m2 w2,
         run_steps lib n env (S k) ids att_dir acc st1 = Some st2 ->
         regex_search (processed st2) (offset st2) = Some m2 ->
         m_att_id m2 = m_att_id m1 ->
         existsb (eqb (m_uti_ph m2)) non_file = false ->
         scan_step lib w2 ids att_dir acc st2
         = Some {| processed := take (m_start m2) (processed st2) ++ repl
                                  ++ drop (m_end m2) (processed st2);
                   offset := m_start m2 + length repl;
                   processed_cache := processed_cache st2;
                   events := events st2 |}.
Proof.
  intros Hm Hnf Hmiss Hd Hpk Hsrc repl.
  pose proof (resolve_source_missing _ _ _ _ _ _ _ Hnf Hmiss Hd Hpk Hsrc)
    as Hres. fold repl in Hres.
  eexists. split; [|split; [|split]].
  - unfold scan_step. rewrite Hm, Hres. reflexivity.
  - reflexivity.
  - simpl. apply lookup_insert_eq.
  - intros n st2 m2 w2 Hrun Hm2 Hid Hnf2.
    assert (Hc : processed_cache st2 !! m_att_id m2 = Some (None, repl)).
    { rewrite Hid. eapply run_steps_memo_keeps; [eassumption|].
      simpl. apply lookup_insert_eq. }
    unfold scan_step. rewrite Hm2, (resolve_hit _ _ _ _ _ _ Hnf2 Hc).
    now rewrite app_nil_r.
Qed.

End Resolve.

(** Not every failure is memoized.  With the file deleted after a failed
    copy, two placeholders of one identifier get two different markers; and
    with the database row missing, the identifier is looked up again for the
    second placeholder and the memo stays empty. *)
Lemma failures_are_not_all_memoized :
  match process_attachments Samples.ascii_lib Samples.deleted_after_first ∅
          Samples.two_placeholders 1 None Samples.export_dir Samples.ids with
  | Some (st, _) => Some (processed st, List.filter is_lookup (events st))
  | None => None
  end = Some (str "[Error copy f.jpg]+[Att source missing: f.jpg]",
              [DbAttachment (str "A"); DbMedia 3;
               FsExists Samples.media_file;
               FsCopy Samples.media_file Samples.copied_file;
               DbAttachment (str "A"); DbMedia 3;
               FsExists Samples.media_file])
  /\ match process_attachments Samples.ascii_lib (fun _ => Samples.bare) ∅
             Samples.two_placeholders 1 None Samples.export_dir
             Samples.ids with
     | Some (st, _) =>
         Some (processed st, List.filter is_lookup (events st),
               processed_cache st !! str "A")
     | None => None
     end = Some (str "[Att DB missing: A]+[Att DB missing: A]",
                 [DbAttachment (str "A"); DbAttachment (str "A")],
                 None).
Proof. split; vm_compute; reflexivity. Qed.

Lemma source_missing_is_memoized_witness :
  exists st1 st2,
    scan_step Samples.ascii_lib Samples.file_missing Samples.ids
      Samples.export_dir None Samples.two_state = Some st1
    /\ scan_step Samples.ascii_lib Samples.file_present Samples.ids
         Samples.export_dir None st1 = Some st2
    /\ processed st2
       = str "[Att source missing: f.jpg]+[Att source missing: f.jpg]"
    /\ events st2 = events st1.
Proof.
  destruct (source_missing_is_memoized Samples.ascii_lib Samples.ids
    Samples.export_dir None (fun _ => Samples.file_missing) 0
    Samples.two_state Samples.first_match
    {| att_pk := Some 7%Z; uti := Some (str "public.jpeg");
       med_pk := Some 3%Z; med_id := Some (str "M");
       fname := Some (str "f.jpg"); gen := None |}
    [DbAttachment (str "A"); DbMedia 3]
    [FsExists Samples.media_file]
    eq_refl eq_refl eq_refl eq_refl eq_refl eq_refl)
    as (st1 & Hstep & Htext & _ & Hlater).
  exists st1. eexists. split; [exact Hstep|].
  split; [|split].
  - refine (Hlater 0 st1
      {| m_start := 28; m_end := 55; m_att_id := str "A";
         m_uti_ph := str "public.jpeg" |} Samples.file_present
      eq_refl _ eq_refl eq_refl).
    rewrite Htext.
    injection Hstep as <-. reflexivity.
  - simpl. rewrite Htext. reflexivity.
  - reflexivity.
Defined.

Lemma scan_uti_is_embedded_as_image_witness :
  fst (resolve Samples.ascii_lib
         (Samples.store 9 (Some (str "com.apple.paper.doc.scan"))
            (str "Scan 1.pdf") [Samples.scan_pdf_file] true)
         Samples.ids Samples.export_dir None ∅ (str "S")
         (str "com.adobe.pdf"))
  = (str "![Scan 1](_attachments/Scan_1_9.pdf)",
     {[ str "S" := (Some (str "Scan_1_9.pdf"),
                    str "![Scan 1](_attachments/Scan_1_9.pdf)") ]}).
Proof.
  erewrite (scan_uti_is_embedded_as_image Samples.ascii_lib Samples.ids
    Samples.export_dir None).
  all: cycle 1.
  - reflexivity.
  - reflexivity.
  - vm_compute. reflexivity.
  - reflexivity.
  - vm_compute. reflexivity.
  - reflexivity.
  - reflexivity.
  - reflexivity.
Defined.

(** A whole run over a note with one link placeholder, in a store where
    the attachment row and its file exist: the only event is the creation
    of the attachments directory. *)
Example link_placeholder_run :
  match process_attachments Samples.ascii_lib (fun _ => Samples.file_present)
          ∅ Samples.link_note 1 None Samples.export_dir Samples.ids with
  | Some (st, _) => Some (processed st, events st)
  | None => None
  end
  = Some (str "see [Unsupported: com.apple.notes.inlinetextattachment.link] here",
          [FsMkdir (Samples.export_dir ++ [str "_attachments"])]).
Proof. vm_compute. reflexivity. Qed.

Lemma non_file_token_is_unsupported_witness :
  scan_step Samples.ascii_lib
    (Samples.store 7 None (str "f.jpg") [Samples.media_file] true)
    Samples.ids Samples.export_dir None Samples.link_state
  = Some {| processed :=
              str "see [Unsupported: com.apple.notes.inlinetextattachment.link] here";
            offset := 60;
            processed_cache := ∅;
            events := [] |}.
Proof.
  etransitivity.
  - refine (proj2 (non_file_token_is_unsupported Samples.ascii_lib
      Samples.ids Samples.export_dir None _ Samples.link_state Samples.link_match _ _)).
    + vm_compute. reflexivity.
    + simpl. tauto.
  - reflexivity.
Defined.

End SubstituteProps.

(** ** Attachment locator *)

Module LocatorProps.

Import Storage Locator.

(** C2.  For a drawing whose only fallback image is
    FallbackImages/<id>.jpg, the locator asks the database for the
    identifier, tests FallbackImages/<id>.png alone and reports that nothing
    was found: the path with the jpg extension is never tested. *)
Theorem drawing_jpg_fallback_is_never_tried :
  let w := Samples.store 7 None (str "") [Samples.drawing_jpg] true in
  path_exists w Samples.drawing_jpg = true
  /\ find_attachment_source_path w 7 (str "com.apple.drawing")
       None None None 7 None
     = (None, [DbFallbackImage 7; FsExists Samples.drawing_png]).
Proof. split; vm_compute; reflexivity. Qed.

End LocatorProps.

(** ** Title of the per-note document *)

Module ComposerProps.

Import Reconstruct Composer.

Lemma lstrip_head s c r : lstrip s = c :: r -> isspace c = false.
Proof.
  induction s as [|a s IH]; simpl; [discriminate|].
  destruct (isspace a) eqn:E; [assumption|].
  now intros [= <- _].
Qed.

Lemma lstrip_keeps_last l c :
  isspace c = false -> exists l', lstrip (l ++ [c]) = l' ++ [c].
Proof.
  intros Hc. induction l as [|a l IH]; simpl.
  - rewrite Hc. now exists [].
  - destruct (isspace a); [assumption|]. now exists (a :: l).
Qed.

Lemma rstrip_keeps_head c r :
  isspace c = false -> exists r', rstrip (c :: r) = c :: r'.
Proof.
  intros Hc. unfold rstrip. simpl.
  destruct (lstrip_keeps_last (rev r) c Hc) as [l' ->].
  exists (rev l'). now rewrite rev_app_distr.
Qed.

Lemma strip_keeps_head c r :
  isspace c = false -> exists r', strip (c :: r) = c :: r'.
Proof.
  intros Hc. unfold strip. simpl. rewrite Hc. now apply rstrip_keeps_head.
Qed.

Lemma strip_head s c r : strip s = c :: r -> isspace c = false.
Proof.
  unfold strip. destruct (lstrip s) as [|a t] eqn:E; [discriminate|].
  pose proof (lstrip_head _ _ _ E) as Ha.
  destruct (rstrip_keeps_head a t Ha) as [r' ->].
  now intros [= <- _].
Qed.

(** The first line of a text that is not blank is not empty. *)
Lemma first_line_not_empty content :
  truthy (strip content) = true ->
  py_slice (strip (before_first NEWLINE (strip content))) 0 80 <> [].
Proof.
  destruct (strip content) as [|c r] eqn:E; [discriminate|]. intros _.
  pose proof (strip_head _ _ _ E) as Hc.
  assert (Hnl : (c =? NEWLINE)%N = false).
  { destruct (N.eqb_spec c NEWLINE) as [->|]; [discriminate|reflexivity]. }
  simpl. rewrite Hnl.
  destruct (strip_keeps_head c (before_first NEWLINE r) Hc) as [r' ->].
  discriminate.
Qed.

(** X21.  The title that the per-note document gets, as the code computes
    it: the explicit title when there is one; otherwise the first line of
    the stripped reconstructed text, stripped and cut to 80 characters, when
    the text is not blank and that line does not start with the placeholder
    prefix, and this line is then never empty; otherwise the snippet cut to
    80 characters and stripped; otherwise Untitled_Note_<pk>.  Lines after
    the first are not looked at.  The note with buffer "Hello World" and one
    run of length 11 gets the title "Hello World" when it has no explicit
    title. *)
Theorem title_of_exported_note pk title summary content :
  let first := strip (before_first NEWLINE (strip content)) in
  let plain_first_line :=
    truthy (strip content) && negb (startswith first (str "![ATTACHMENT")) in
  (forall t, title = Some t -> truthy t = true ->
     export_title pk title summary content = t)
  /\ (truthy_opt title = false -> plain_first_line = true ->
        export_title pk title summary content = py_slice first 0 80
        /\ py_slice first 0 80 <> [])
  /\ (truthy_opt title = false -> plain_first_line = false ->
        forall s, summary = Some s -> truthy s = true ->
        export_title pk title summary content = strip (py_slice s 0 80))
  /\ (truthy_opt title = false -> plain_first_line = false ->
        truthy_opt summary = false ->
        export_title pk title summary content
        = str "Untitled_Note_" ++ of_Z pk)
  /\ (forall zl parse blob,
        decodes_to zl parse blob Samples.hello_world ->
        decode_note_protobuf zl parse blob = str "Hello World"
        /\ export_title pk None summary (decode_note_protobuf zl parse blob)
           = str "Hello World").
Proof.
  intros first plain_first_line. unfold export_title. fold first.
  repeat apply conj.
  - intros t -> Ht. simpl. now rewrite Ht.
  - intros -> Hplain. unfold plain_first_line in Hplain.
    apply andb_true_iff in Hplain as [Hc Hs].
    pose proof (first_line_not_empty content Hc) as Hne. fold first in Hne.
    rewrite Hc, Hs. simpl.
    destruct (py_slice first 0 80) eqn:E; [congruence|].
    now split.
  - intros -> Hplain s -> Hs. unfold plain_first_line in Hplain.
    destruct (truthy (strip content)); simpl in *;
      [rewrite Hplain; simpl|]; now rewrite Hs.
  - intros -> Hplain ->. unfold plain_first_line in Hplain.
    destruct (truthy (strip content)); simpl in *;
      [rewrite Hplain; simpl|]; reflexivity.
  - intros zl parse blob Hdec.
    unfold decode_note_protobuf.
    rewrite (ReconstructProps.decode_with_note _ _ _ _ _ Hdec).
    split; reflexivity.
Qed.

Lemma title_of_exported_note_witness :
  export_title 42 None None
    (decode_note_protobuf Samples.inflate_gzip_id
       (Samples.parse_as Samples.hello_world) Samples.blob1)
  = str "Hello World".
Proof.
  exact (proj2 (proj2 (proj2 (proj2 (proj2
    (title_of_exported_note 42 None None []))))
    Samples.inflate_gzip_id (Samples.parse_as Samples.hello_world)
    Samples.blob1 (ReconstructProps.sample_decodes _))).
Defined.

(** C6.  A note without explicit title whose reconstructed text starts
    with a placeholder line followed by the line "Hello World" does not get
    its first non-placeholder line as title: only the first line is looked
    at, so the title is the snippet when there is one and Untitled_Note_<pk>
    otherwise. *)
Theorem placeholder_first_line_hides_later_lines :
  let text :=
    decode_note_protobuf Samples.inflate_gzip_id
      (Samples.parse_as Samples.picture_first) Samples.blob1 in
  text = str "![ATTACHMENT|A1|public.jpeg]" ++ [NEWLINE] ++ str "Hello World"
  /\ export_title 42 None None text = str "Untitled_Note_42"
  /\ export_title 42 None (Some (str "Snip")) text = str "Snip".
Proof. repeat split. Qed.

End ComposerProps.

(** ** Further properties of the run walker *)

Module ReconstructLaws.

Import Reconstruct.

Lemma decode_with_cases zl parse blob :
  (exists s,
     In s [str "[No data blob]"; str "[Decompression failed]";
           str "[Proto decode error]"; str "[Doc/Note not found in Proto]"]
     /\ forall f, decode_with zl parse f blob = s)
  \/ (exists n, decodes_to zl parse blob n
        /\ forall f, decode_with zl parse f blob = f n).
Proof.
  unfold decode_with.
  destruct (truthy_bytes blob) eqn:Hb; simpl;
    [|left; eexists; split; [left; reflexivity|reflexivity]].
  destruct (Zlib.decompress_gzip_data zl blob) as [raw|] eqn:Hz; simpl;
    [|left; eexists; split; [right; left; reflexivity|reflexivity]].
  destruct raw as [|b raw]; simpl;
    [left; eexists; split; [right; left; reflexivity|reflexivity]|].
  destruct (parse (b :: raw)) as [proto|] eqn:Hp;
    [|left; eexists; split; [do 2 right; left; reflexivity|reflexivity]].
  destruct (Proto.document proto) as [doc|] eqn:Hd;
    [|left; eexists; split; [do 3 right; left; reflexivity|reflexivity]].
  destruct (Proto.note doc) as [n|] eqn:Hn;
    [|left; eexists; split; [do 3 right; left; reflexivity|reflexivity]].
  right. exists n. split; [|reflexivity].
  split; [assumption|]. exists (b :: raw), proto, doc.
  repeat split; try assumption. discriminate.
Qed.

(** X1.  Whatever the blob, both decoders return either one of the four
    bracketed sentinels, and then the same one, or the text of the note that
    the blob decompresses and parses to.  A non-empty blob that inflates to
    zero bytes is reported as a failed decompression. *)
Theorem decoders_return_sentinel_or_note_text zl parse blob :
  ((exists s,
      In s [str "[No data blob]"; str "[Decompression failed]";
            str "[Proto decode error]"; str "[Doc/Note not found in Proto]"]
      /\ decode_note_protobuf zl parse blob = s
      /\ decode_note_protobuf_text_only zl parse blob = s)
   \/ (exists n, decodes_to zl parse blob n
         /\ decode_note_protobuf zl parse blob = note_text n
         /\ decode_note_protobuf_text_only zl parse blob = note_text_only n))
  /\ (truthy_bytes blob = true ->
      Zlib.decompress_gzip_data zl blob = Some [] ->
      decode_note_protobuf zl parse blob = str "[Decompression failed]").
Proof.
  split.
  - unfold decode_note_protobuf, decode_note_protobuf_text_only.
    destruct (decode_with_cases zl parse blob) as [(s & Hs & H)|(n & Hn & H)].
    + left. exists s. rewrite !H. auto.
    + right. exists n. rewrite !H. auto.
  - intros Hb Hz. unfold decode_note_protobuf, decode_with.
    now rewrite Hb, Hz.
Qed.

Lemma decoders_return_sentinel_or_note_text_witness :
  decode_note_protobuf Samples.inflate_empty
    (Samples.parse_as Samples.padded) Samples.blob1
  = str "[Decompression failed]".
Proof.
  exact (proj2 (decoders_return_sentinel_or_note_text Samples.inflate_empty
    (Samples.parse_as Samples.padded) Samples.blob1) eq_refl eq_refl).
Defined.

Lemma walk_spec_plain m content P runs :
  Forall (fun r => Proto.attachmentInfo r = None) runs ->
  walk_spec m content P runs = take (total_length runs) (drop P content).
Proof.
  intros H. revert P. induction H as [|run rest Hrun _ IH]; intros P; simpl.
  - reflexivity.
  - unfold contribution. rewrite Hrun, IH.
    unfold total_length. simpl. fold (total_length rest).
    unfold py_slice. replace (P + Proto.length run - P) with (Proto.length run)
      by lia.
    rewrite <- drop_drop. apply take_take_drop.
Qed.

(** X2.  A note whose runs all lack attachmentInfo reconstructs to the
    first (sum of the run lengths) characters of its text buffer: to the
    whole buffer when the runs cover it, and to a truncated text when they
    fall short. *)
Theorem plain_runs_reconstruct_buffer_prefix zl parse blob n :
  decodes_to zl parse blob n ->
  Proto.attributeRun n <> [] ->
  Forall (fun r => Proto.attachmentInfo r = None) (Proto.attributeRun n) ->
  decode_note_protobuf zl parse blob
    = take (total_length (Proto.attributeRun n)) (Proto.noteText n)
  /\ (length (Proto.noteText n) <= total_length (Proto.attributeRun n) ->
      decode_note_protobuf zl parse blob = Proto.noteText n).
Proof.
  intros Hdec Hne Hplain.
  unfold decode_note_protobuf.
  rewrite (ReconstructProps.decode_with_note _ _ _ _ _ Hdec).
  rewrite (ReconstructProps.note_text_runs _ Hne).
  rewrite (walk_spec_plain _ _ _ _ Hplain). simpl.
  split; [reflexivity|]. intros Hlen. now apply take_ge.
Qed.

Lemma plain_runs_reconstruct_buffer_prefix_witness :
  decode_note_protobuf Samples.inflate_gzip_id
    (Samples.parse_as Samples.short_runs) Samples.blob1
  = str "Hello".
Proof.
  exact (proj1 (plain_runs_reconstruct_buffer_prefix Samples.inflate_gzip_id
    (Samples.parse_as Samples.short_runs) Samples.blob1 Samples.short_runs
    (ReconstructProps.sample_decodes _) ltac:(discriminate)
    ltac:(repeat constructor))).
Defined.

Lemma lstrip_fixed s :
  (forall c r, s = c :: r -> isspace c = false) -> lstrip s = s.
Proof.
  destruct s as [|c r]; [reflexivity|]. intros H. simpl.
  now rewrite (H c r eq_refl).
Qed.

Lemma strip_last s c r : rev (strip s) = c :: r -> isspace c = false.
Proof.
  unfold strip, rstrip. rewrite rev_involutive. apply ComposerProps.lstrip_head.
Qed.

Lemma strip_idempotent s : strip (strip s) = strip s.
Proof.
  unfold strip at 1.
  rewrite (lstrip_fixed (strip s)) by apply ComposerProps.strip_head.
  unfold rstrip.
  rewrite (lstrip_fixed (rev (strip s))) by apply strip_last.
  apply rev_involutive.
Qed.

Lemma in_lstrip c s : In c (lstrip s) -> In c s.
Proof.
  induction s as [|a s IH]; simpl; [tauto|].
  destruct (isspace a); [auto|]. simpl. tauto.
Qed.

Lemma in_strip c s : In c (strip s) -> In c s.
Proof.
  unfold strip, rstrip. intros H.
  apply in_rev, in_lstrip, in_rev in H. now apply in_lstrip.
Qed.

Lemma not_in_remove_char c s : ~ In c (remove_char c s).
Proof.
  unfold remove_char. rewrite <- list_elem_of_In, list_elem_of_filter.
  tauto.
Qed.

(** X3.  What the text-only decoder returns is clean, as the writer of the
    aggregated file assumes: it never contains U+FFFC and it has no white
    space at either end. *)
Theorem text_only_output_is_clean zl parse blob :
  ~ In OBJECT_REPLACEMENT (decode_note_protobuf_text_only zl parse blob)
  /\ strip (decode_note_protobuf_text_only zl parse blob)
     = decode_note_protobuf_text_only zl parse blob.
Proof.
  unfold decode_note_protobuf_text_only.
  destruct (decode_with_cases zl parse blob) as [(s & Hs & H)|(n & _ & H)];
    rewrite H.
  - simpl in Hs.
    destruct Hs as [<-|[<-|[<-|[<-|[]]]]];
      (split; [vm_compute; intuition discriminate|reflexivity]).
  - unfold note_text_only. split.
    + intros Hin. apply in_strip in Hin. now apply not_in_remove_char in Hin.
    + apply strip_idempotent.
Qed.

Lemma walk_plain_same_in_both_modes content runs :
  Forall (fun r => Proto.attachmentInfo r = None) runs ->
  walk TextOnly content runs = walk WithPlaceholders content runs.
Proof.
  intros H. rewrite !ReconstructProps.walk_walk_spec.
  now rewrite !(walk_spec_plain _ _ _ _ H).
Qed.

(** X4.  For a note whose runs all lack attachmentInfo, the text-only
    reconstruction is the reconstruction with placeholders with U+FFFC
    removed and the surrounding white space stripped. *)
Theorem text_only_is_cleaned_reconstruction zl parse blob n :
  decodes_to zl parse blob n ->
  Forall (fun r => Proto.attachmentInfo r = None) (Proto.attributeRun n) ->
  decode_note_protobuf_text_only zl parse blob
  = strip (remove_char OBJECT_REPLACEMENT
             (decode_note_protobuf zl parse blob)).
Proof.
  intros Hdec Hplain.
  unfold decode_note_protobuf, decode_note_protobuf_text_only.
  rewrite !(ReconstructProps.decode_with_note _ _ _ _ _ Hdec).
  unfold note_text_only, note_text.
  destruct (Proto.attributeRun n) as [|r rs]; [reflexivity|].
  now rewrite (walk_plain_same_in_both_modes _ _ Hplain).
Qed.

Lemma text_only_is_cleaned_reconstruction_witness :
  decode_note_protobuf_text_only Samples.inflate_gzip_id
    (Samples.parse_as Samples.padded_run) Samples.blob1
  = str "a".
Proof.
  rewrite (text_only_is_cleaned_reconstruction Samples.inflate_gzip_id
    (Samples.parse_as Samples.padded_run) Samples.blob1 Samples.padded_run
    (ReconstructProps.sample_decodes _) ltac:(repeat constructor)).
  reflexivity.
Defined.

End ReconstructLaws.

(** ** The placeholder token and the pattern that finds it *)

Module TokenLaws.

Import Reconstruct Substitute.

Lemma startswith_app p s : startswith (p ++ s) p = true.
Proof.
  induction p as [|a p IH]; simpl; [now destruct s|].
  now rewrite N.eqb_refl.
Qed.

Lemma startswith_split s p :
  startswith s p = true -> s = p ++ drop (length p) s.
Proof.
  revert s. induction p as [|a p IH]; intros s H; simpl; [reflexivity|].
  destruct s as [|b s]; simpl in H; [discriminate|].
  apply andb_true_iff in H as [Hab H]. apply N.eqb_eq in Hab as ->.
  simpl. f_equal. now apply IH.
Qed.

Lemma before_first_app sep g rest :
  ~ In sep g -> before_first sep (g ++ sep :: rest) = g.
Proof.
  induction g as [|c g IH]; intros Hnot; simpl.
  - now rewrite N.eqb_refl.
  - destruct (N.eqb_spec c sep) as [->|_]; [exfalso; apply Hnot; now left|].
    f_equal. apply IH. intros Hin. apply Hnot. now right.
Qed.

Lemma before_first_not_in sep s : ~ In sep (before_first sep s).
Proof.
  induction s as [|c s IH]; simpl; [tauto|].
  destruct (N.eqb_spec c sep) as [->|Hne]; simpl; [tauto|].
  intros [H|H]; [congruence|tauto].
Qed.

Lemma before_first_split sep s :
  length (before_first sep s) < length s ->
  s = before_first sep s ++ sep :: drop (S (length (before_first sep s))) s.
Proof.
  induction s as [|c s IH]; simpl; [lia|].
  destruct (N.eqb_spec c sep) as [->|Hne]; simpl.
  - intros _. now rewrite drop_0.
  - intros H. f_equal. apply IH. lia.
Qed.

Lemma truthy_not_nil (s : pystr) : truthy s = true <-> s <> [].
Proof. destruct s; simpl; split; congruence. Qed.

Lemma match_here_token id uti rest :
  id <> [] -> ~ In BAR id -> uti <> [] -> ~ In RBRACKET uti ->
  let token :=
    placeholder_token
      {| Proto.attachmentIdentifier := id; Proto.typeUti := uti |} in
  match_here (token ++ rest) = Some (length token, id, uti).
Proof.
  intros Hid Hbar Huti Hbr token.
  unfold token, placeholder_token, match_here. simpl Proto.attachmentIdentifier.
  simpl Proto.typeUti.
  set (lit := str "![ATTACHMENT|").
  rewrite <- !app_assoc. rewrite startswith_app, drop_app_length.
  change (str "|" ++ uti ++ str "]" ++ rest)
    with (BAR :: uti ++ RBRACKET :: rest).
  rewrite (before_first_app _ _ _ Hbar).
  apply truthy_not_nil in Hid as Hid'. rewrite Hid'.
  assert (Hl1 : (length id <? length (id ++ BAR :: uti ++ RBRACKET :: rest))
                = true).
  { apply Nat.ltb_lt. rewrite length_app. simpl. lia. }
  rewrite Hl1. simpl andb. cbv iota.
  replace (drop (S (length id)) (id ++ BAR :: uti ++ RBRACKET :: rest))
    with (uti ++ RBRACKET :: rest).
  2:{ replace (id ++ BAR :: uti ++ RBRACKET :: rest)
        with ((id ++ [BAR]) ++ uti ++ RBRACKET :: rest)
        by (now rewrite <- app_assoc).
      rewrite drop_app_length'; [reflexivity|].
      rewrite length_app. simpl. lia. }
  rewrite (before_first_app _ _ _ Hbr).
  apply truthy_not_nil in Huti as Huti'. rewrite Huti'.
  assert (Hl2 : (length uti <? length (uti ++ RBRACKET :: rest)) = true).
  { apply Nat.ltb_lt. rewrite length_app. simpl. lia. }
  rewrite Hl2. simpl andb. cbv iota.
  do 3 f_equal. rewrite !length_app. simpl. lia.
Qed.

(** X5.  The token that the decoder writes for an attachment run is found
    again by the substitution pattern with the same identifier and UTI,
    wherever it stands in the text, provided the identifier is not empty and
    holds no [|] and the UTI is not empty and holds no []]. *)
Theorem decoder_token_is_matched_back pre id uti rest :
  id <> [] -> ~ In BAR id -> uti <> [] -> ~ In RBRACKET uti ->
  let token :=
    placeholder_token
      {| Proto.attachmentIdentifier := id; Proto.typeUti := uti |} in
  regex_search (pre ++ token ++ rest) (length pre)
  = Some {| m_start := length pre; m_end := length pre + length token;
            m_att_id := id; m_uti_ph := uti |}.
Proof.
  intros Hid Hbar Huti Hbr token.
  unfold regex_search. rewrite drop_app_length.
  pose proof (match_here_token id uti rest Hid Hbar Huti Hbr) as H.
  cbv zeta in H. fold token in H.
  destruct (token ++ rest) as [|c s] eqn:E; rewrite ?E in H;
    cbn [search_from]; now rewrite H.
Qed.

Lemma decoder_token_is_matched_back_witness :
  regex_search (str "Before![ATTACHMENT|A1|public.jpeg]After") 6
  = Some {| m_start := 6; m_end := 34;
            m_att_id := str "A1"; m_uti_ph := str "public.jpeg" |}.
Proof.
  apply (decoder_token_is_matched_back (str "Before") (str "A1")
           (str "public.jpeg") (str "After")).
  - discriminate.
  - vm_compute. intuition discriminate.
  - discriminate.
  - vm_compute. intuition discriminate.
Defined.

Lemma match_here_shape s len g1 g2 :
  match_here s = Some (len, g1, g2) ->
  take len s = str "![ATTACHMENT|" ++ g1 ++ str "|" ++ g2 ++ str "]"
  /\ g1 <> [] /\ ~ In BAR g1 /\ g2 <> [] /\ ~ In RBRACKET g2.
Proof.
  unfold match_here.
  destruct (startswith s (str "![ATTACHMENT|")) eqn:Hlit; [|discriminate].
  apply startswith_split in Hlit.
  set (lit := str "![ATTACHMENT|") in *.
  set (rest := drop (length lit) s) in *.
  destruct (truthy (before_first BAR rest)
            && (length (before_first BAR rest) <? length rest)) eqn:H1;
    [|discriminate].
  apply andb_true_iff in H1 as [Ht1 H1]. apply Nat.ltb_lt in H1.
  apply before_first_split in H1.
  set (rest2 := drop (S (length (before_first BAR rest))) rest) in *.
  destruct (truthy (before_first RBRACKET rest2)
            && (length (before_first RBRACKET rest2) <? length rest2)) eqn:H2;
    [|discriminate].
  apply andb_true_iff in H2 as [Ht2 H2]. apply Nat.ltb_lt in H2.
  apply before_first_split in H2.
  set (a1 := before_first BAR rest) in *.
  set (a2 := before_first RBRACKET rest2) in *.
  set (tail := drop (S (length a2)) rest2) in *.
  assert (Hs : s = (lit ++ a1 ++ str "|" ++ a2 ++ str "]") ++ tail).
  { rewrite <- !app_assoc. etransitivity; [exact Hlit|]. f_equal.
    etransitivity; [exact H1|]. f_equal. simpl. f_equal. exact H2. }
  intros [= <- <- <-].
  repeat split.
  - etransitivity; [apply f_equal; exact Hs|].
    apply take_app_length'. rewrite !length_app. simpl. lia.
  - now apply truthy_not_nil.
  - apply before_first_not_in.
  - now apply truthy_not_nil.
  - apply before_first_not_in.
Qed.

Lemma search_from_leftmost s i m :
  search_from s i = Some m ->
  match_here (drop (m_start m - i) s)
    = Some (m_end m - m_start m, m_att_id m, m_uti_ph m)
  /\ forall j, j < m_start m - i -> match_here (drop j s) = None.
Proof.
  revert i. induction s as [|c s IH]; intros i; cbn [search_from].
  - discriminate.
  - destruct (match_here (c :: s)) as [[[len g1] g2]|] eqn:E.
    + intros [= <-]. cbn [m_start m_end m_att_id m_uti_ph].
      rewrite Nat.sub_diag, drop_0, E.
      split; [do 3 f_equal; lia|intros j; lia].
    + intros H. pose proof (ScanProps.search_from_bounds _ _ _ H) as Hb.
      apply IH in H as [Hm Hleft].
      replace (m_start m - i) with (S (m_start m - S i)) by lia.
      split; [exact Hm|].
      intros [|j] Hj; [exact E|]. simpl. apply Hleft. lia.
Qed.

(** X6.  Every match of the pattern is a well-formed token and the leftmost
    one: the matched text is ![ATTACHMENT|<id>|<uti>] for the two groups, the
    identifier is not empty and holds no [|], the UTI is not empty and holds
    no []], and no match starts between the search offset and the start of
    the one returned. *)
Theorem regex_match_is_leftmost_token processed offset m :
  regex_search processed offset = Some m ->
  py_slice processed (m_start m) (m_end m)
    = placeholder_token {| Proto.attachmentIdentifier := m_att_id m;
                           Proto.typeUti := m_uti_ph m |}
  /\ m_att_id m <> [] /\ ~ In BAR (m_att_id m)
  /\ m_uti_ph m <> [] /\ ~ In RBRACKET (m_uti_ph m)
  /\ forall j, offset <= j < m_start m ->
       match_here (drop j processed) = None.
Proof.
  intros H. pose proof (ScanProps.regex_search_bounds _ _ _ H) as Hb.
  unfold regex_search in H. apply search_from_leftmost in H as [Hm Hleft].
  rewrite drop_drop in Hm.
  replace (offset + (m_start m - offset)) with (m_start m) in Hm by lia.
  apply match_here_shape in Hm as (Htake & H1 & H2 & H3 & H4).
  repeat split; try assumption.
  intros j Hj. specialize (Hleft (j - offset) ltac:(lia)).
  rewrite drop_drop in Hleft.
  now replace (offset + (j - offset)) with j in Hleft by lia.
Qed.

Lemma regex_match_is_leftmost_token_witness :
  py_slice Samples.link_note 4 62
  = str "![ATTACHMENT|L1|com.apple.notes.inlinetextattachment.link]".
Proof.
  exact (proj1 (regex_match_is_leftmost_token Samples.link_note 0
    Samples.link_match eq_refl)).
Defined.

End TokenLaws.

(** ** Further properties of the locator *)

Module LocatorLaws.

Import Storage Locator.
Local Open Scope log_scope.

(** Database reads of the locator and tests for a path. *)
Local Abbreviation reads_only evs :=
  (Forall (fun e => match e with
                    | DbFallbackImage _ | DbFallbackPdf _ | DbGallery _
                    | FsExists _ => True
                    | _ => False
                    end) evs).

(** A block that only reads, and returns only a path that it has tested
    and found. *)
Local Abbreviation sound w m :=
  (reads_only (snd m)
   /\ forall p, fst m = Some p ->
        path_exists w p = true /\ In (FsExists p) (snd m)).

#[local] Arguments str : simpl never.

Ltac split_block :=
  repeat (simpl;
    match goal with
    | |- context [match ?x with _ => _ end] =>
        let T := type of x in
        let T' := eval hnf in T in
        lazymatch T' with
        | prod _ _ => is_var x; destruct x
        | _ => destruct x eqn:?
        end
    end).

Ltac close_block :=
  simpl; split;
  [ repeat constructor
  | intros ? [= <-] || discriminate;
    repeat split; simpl; auto 10 ].

Lemma standard_media_sound w base med_id fname gen :
  sound w (standard_media w base med_id fname gen).
Proof.
  unfold standard_media, bind, probe, emit, ret. split_block; close_block.
Qed.

Lemma drawings_sound w base att_pk uti z_att :
  sound w (drawings w base att_pk uti z_att).
Proof.
  unfold drawings, row_or_nones, bind, probe, emit, ret. simpl fold_left.
  split_block; close_block.
Qed.

Lemma scan_pdf_sound w base att_pk uti z_att :
  sound w (scan_pdf w base att_pk uti z_att).
Proof.
  unfold scan_pdf, row_or_nones, bind, probe, emit, ret.
  split_block; close_block.
Qed.

Lemma gallery_sound w base att_pk uti z_att :
  sound w (gallery w base att_pk uti z_att).
Proof.
  unfold gallery, bind, probe, emit, ret. split_block; close_block.
Qed.

Lemma or_next_sound w m k :
  sound w m -> sound w k -> sound w (or_next m k).
Proof.
  unfold or_next, bind, ret. destruct m as [[p|] e1]; simpl.
  - intros [Hr Hp] _. rewrite app_nil_r. auto.
  - destruct k as [r e2]. simpl. intros [Hr1 _] [Hr2 Hp]. split.
    + now apply Forall_app.
    + intros p Hrp. destruct (Hp p Hrp) as (? & ?).
      split; [assumption|]. apply in_or_app. now right.
Qed.

Lemma try_base_sound w att_pk uti med_id fname gen z_att base :
  sound w (try_base w att_pk uti med_id fname gen z_att base).
Proof.
  unfold try_base.
  repeat apply or_next_sound;
    auto using standard_media_sound, drawings_sound, scan_pdf_sound,
      gallery_sound.
Qed.

Lemma first_base_sound w att_pk uti med_id fname gen z_att paths :
  sound w (first_base w att_pk uti med_id fname gen z_att paths).
Proof.
  induction paths as [|base rest IH]; cbn [first_base].
  - simpl. split; [constructor|discriminate].
  - apply or_next_sound; [apply try_base_sound|exact IH].
Qed.

(** X7.  The locator only reads: it asks the database for fallback and
    gallery rows and tests paths, and it never copies or creates anything.
    A path it returns is one it has tested and found to exist. *)
Theorem located_path_was_tested_and_exists w att_pk uti med_id fname gen
    z_att acc :
  let r := find_attachment_source_path w att_pk uti med_id fname gen z_att
             acc in
  Forall (fun e => match e with
                   | DbFallbackImage _ | DbFallbackPdf _ | DbGallery _
                   | FsExists _ => True
                   | _ => False
                   end) (snd r)
  /\ forall p, fst r = Some p ->
       path_exists w p = true /\ In (FsExists p) (snd r).
Proof. apply first_base_sound. Qed.

Lemma standard_media_finds w base mid fn gen :
  truthy mid = true -> truthy fn = true ->
  path_exists w (base // str "Media" // mid // fn) = true ->
  exists p evs,
    standard_media w base (Some mid) (Some fn) gen = (Some p, evs)
    /\ (p = base // str "Media" // mid // or_else gen [] // fn
        \/ p = base // str "Media" // mid // fn)
    /\ Forall (fun e => exists q, e = FsExists q) evs.
Proof.
  intros Hm Hf Hex. unfold standard_media, bind, probe, emit, ret.
  rewrite Hm, Hf. cbn [andb].
  destruct (path_exists w
              (base // str "Media" // mid // or_else gen [] // fn)) eqn:E1.
  - do 2 eexists. split; [reflexivity|]. split; [now left|].
    repeat constructor. eauto.
  - destruct (truthy (or_else gen [])) eqn:Hg.
    + rewrite Hex. do 2 eexists. split; [reflexivity|]. split; [now right|].
      repeat constructor; eauto.
    + destruct (or_else gen []); [|discriminate].
      cbn [div] in E1. congruence.
Qed.



End LocatorLaws.

(** ** Further properties of the substitution *)

Module SubstituteLaws.

Import Storage Locator Substitute.

Section Resolve.

Variable lib : PyLib.
Variable ids : EntityIds.
Variable att_dir : path.
Variable acc : option pystr.

(** X9.  For an attachment whose row exists and is linked to a media row:
    when the query for the media row raises a database error that is not the
    missing generation column, the row of the attachment is forgotten and
    the placeholder is reported as missing from the database, without any
    file lookup and without a memo entry; when the error is the missing
    generation column, the media row is read again without that column and
    the details are those of a media row without generation. *)
Theorem media_query_error_outcomes w cache att_id uti_ph pk u m :
  existsb (eqb uti_ph) non_file = false ->
  cache !! att_id = None ->
  q_att w att_id (ICAttachment ids) = Row (pk, u, Some m) ->
  (q_med w m (ICMedia ids) = OperationalError false ->
   resolve lib w ids att_dir acc cache att_id uti_ph
   = ((str "[Att DB missing: " ++ att_id ++ str "]", cache),
      [DbAttachment att_id; DbMedia m]))
  /\ (forall i f,
        q_med w m (ICMedia ids) = OperationalError true ->
        q_med_fb w (Some m) (ICMedia ids) = Row (i, f) ->
        get_attachment_and_media_details w att_id (ICAttachment ids)
          (ICMedia ids)
        = ({| att_pk := Some pk; uti := u; med_pk := Some m;
              med_id := i; fname := f; gen := None |},
           [DbAttachment att_id; DbMedia m; DbMediaFallback (Some m)])).
Proof.
  intros Hnf Hmiss Hatt. split.
  - intros Hmed. unfold resolve. rewrite Hnf, Hmiss.
    unfold get_attachment_and_media_details, bind, emit.
    rewrite Hatt, Hmed. reflexivity.
  - intros i f Hmed Hfb.
    unfold get_attachment_and_media_details, on_operational_error, bind,
      emit.
    rewrite Hatt, Hmed, Hfb. reflexivity.
Qed.

Lemma resolve_copied w cache att_id uti_ph d e1 src e2 :
  existsb (eqb uti_ph) non_file = false ->
  cache !! att_id = None ->
  get_attachment_and_media_details w att_id (ICAttachment ids) (ICMedia ids)
    = (d, e1) ->
  truthy_int (att_pk d) = true ->
  let eff_uti := or_else (uti d) uti_ph in
  let pk := default 0%Z (att_pk d) in
  find_attachment_source_path w pk eff_uti (med_id d) (fname d) (gen d)
    (ICAttachment ids) acc = (Some src, e2) ->
  let base_fname := or_else (fname d) (name src) in
  let safe_stem :=
    sanitize_filename lib (Some (path_stem lib base_fname)) false in
  let dest_fname :=
    safe_stem ++ str "_" ++ of_Z pk
    ++ get_extension_from_uti lib eff_uti (Some base_fname) in
  copy2 w src (att_dir // dest_fname)%log = true ->
  let repl :=
    markup lib eff_uti (replace_char 95 32 safe_stem)
      (str "_attachments/" ++ dest_fname) in
  resolve lib w ids att_dir acc cache att_id uti_ph
  = ((repl, <[att_id := (Some dest_fname, repl)]> cache),
     e1 ++ e2 ++ [FsCopy src (att_dir // dest_fname)%log]).
Proof.
  intros Hnf Hmiss Hd Hpk eff_uti pk Hsrc base_fname safe_stem dest_fname
    Hcopy repl.
  unfold resolve. rewrite Hnf, Hmiss. unfold bind at 1. rewrite Hd, Hpk.
  fold eff_uti pk. unfold bind at 1. rewrite Hsrc.
  unfold materialize, bind, emit.
  fold base_fname safe_stem dest_fname. rewrite Hcopy.
  rewrite SubstituteProps.render_attachment.
  - unfold ret. now rewrite app_nil_r.
  - unfold dest_fname. destruct safe_stem; discriminate.
Qed.

(** X10.  Once an attachment has been located and copied, its identifier
    is in the memo with the markup: every later placeholder of the note
    with the same identifier, and a declared UTI outside the non-file set,
    gets the same markup and causes no event, so the file is not copied a
    second time. *)
Theorem copied_attachment_is_memoized env k st m1 d e1 src e2 :
  regex_search (processed st) (offset st) = Some m1 ->
  existsb (eqb (m_uti_ph m1)) non_file = false ->
  processed_cache st !! m_att_id m1 = None ->
  get_attachment_and_media_details (env k) (m_att_id m1) (ICAttachment ids)
    (ICMedia ids) = (d, e1) ->
  truthy_int (att_pk d) = true ->
  let eff_uti := or_else (uti d) (m_uti_ph m1) in
  let pk := default 0%Z (att_pk d) in
  find_attachment_source_path (env k) pk eff_uti (med_id d) (fname d)
    (gen d) (ICAttachment ids) acc = (Some src, e2) ->
  let base_fname := or_else (fname d) (name src) in
  let safe_stem :=
    sanitize_filename lib (Some (path_stem lib base_fname)) false in
  let dest_fname :=
    safe_stem ++ str "_" ++ of_Z pk
    ++ get_extension_from_uti lib eff_uti (Some base_fname) in
  copy2 (env k) src (att_dir // dest_fname)%log = true ->
  let repl :=
    markup lib eff_uti (replace_char 95 32 safe_stem)
      (str "_attachments/" ++ dest_fname) in
  exists st1,
    scan_step lib (env k) ids att_dir acc st = Some st1
    /\ processed st1 = take (m_start m1) (processed st) ++ repl
                         ++ drop (m_end m1) (processed st)
    /\ events st1
       = events st ++ e1 ++ e2 ++ [FsCopy src (att_dir // dest_fname)%log]
    /\ forall n st2 m2 w2,
         run_steps lib n env (S k) ids att_dir acc st1 = Some st2 ->
         regex_search (processed st2) (offset st2) = Some m2 ->
         m_att_id m2 = m_att_id m1 ->
         existsb (eqb (m_uti_ph m2)) non_file = false ->
         scan_step lib w2 ids att_dir acc st2
         = Some {| processed := take (m_start m2) (processed st2) ++ repl
                                  ++ drop (m_end m2) (processed st2);
                   offset := m_start m2 + length repl;
                   processed_cache := processed_cache st2;
                   events := events st2 |}.
Proof.
  intros Hm Hnf Hmiss Hd Hpk eff_uti pk Hsrc base_fname safe_stem dest_fname
    Hcopy repl.
  pose proof (resolve_copied _ _ _ _ _ _ _ _ Hnf Hmiss Hd Hpk Hsrc Hcopy)
    as Hres. cbv zeta in Hres.
  fold eff_uti pk base_fname safe_stem dest_fname repl in Hres.
  eexists. split; [|split; [|split]].
  - unfold scan_step. rewrite Hm, Hres. reflexivity.
  - reflexivity.
  - reflexivity.
  - intros n st2 m2 w2 Hrun Hm2 Hid Hnf2.
    assert (Hc : processed_cache st2 !! m_att_id m2
                 = Some (Some dest_fname, repl)).
    { rewrite Hid.
      eapply SubstituteProps.run_steps_memo_keeps; [eassumption|].
      simpl. apply lookup_insert_eq. }
    unfold scan_step.
    rewrite Hm2, (SubstituteProps.resolve_hit _ _ _ _ _ _ _ _ _ _ Hnf2 Hc).
    now rewrite app_nil_r.
Qed.

End Resolve.

Lemma copied_attachment_is_memoized_witness :
  exists st1 st2,
    scan_step Samples.ascii_lib Samples.file_present Samples.ids
      Samples.export_dir None Samples.two_state = Some st1
    /\ scan_step Samples.ascii_lib Samples.bare Samples.ids
         Samples.export_dir None st1 = Some st2
    /\ processed st2
       = str "![f](_attachments/f_7.jpg)+![f](_attachments/f_7.jpg)"
    /\ events st2 = events st1.
Proof.
  destruct (copied_attachment_is_memoized Samples.ascii_lib Samples.ids
    Samples.export_dir None (fun _ => Samples.file_present) 0
    Samples.two_state Samples.first_match
    {| att_pk := Some 7%Z; uti := Some (str "public.jpeg");
       med_pk := Some 3%Z; med_id := Some (str "M");
       fname := Some (str "f.jpg"); gen := None |}
    [DbAttachment (str "A"); DbMedia 3] Samples.media_file
    [FsExists Samples.media_file]
    eq_refl eq_refl eq_refl eq_refl eq_refl eq_refl eq_refl)
    as (st1 & Hstep & Htext & _ & Hlater).
  exists st1. eexists. split; [exact Hstep|].
  split; [|split].
  - refine (Hlater 0 st1
      {| m_start := 27; m_end := 54; m_att_id := str "A";
         m_uti_ph := str "public.jpeg" |} Samples.bare
      eq_refl _ eq_refl eq_refl).
    rewrite Htext.
    injection Hstep as <-. reflexivity.
  - simpl. rewrite Htext. reflexivity.
  - reflexivity.
Defined.

Lemma media_query_error_outcomes_witness :
  resolve Samples.ascii_lib Samples.media_query_fails Samples.ids
    Samples.export_dir None ∅ (str "A") (str "public.jpeg")
  = ((str "[Att DB missing: A]", ∅), [DbAttachment (str "A"); DbMedia 3]).
Proof.
  exact (proj1 (media_query_error_outcomes Samples.ascii_lib Samples.ids
    Samples.export_dir None Samples.media_query_fails ∅ (str "A")
    (str "public.jpeg") 7 (Some (str "public.jpeg")) 3
    eq_refl eq_refl eq_refl) eq_refl).
Defined.

Lemma scan_loop_ends_without_match lib fuel env k ids att_dir acc st st_f :
  scan_loop lib fuel env k ids att_dir acc st = Some st_f ->
  regex_search (processed st_f) (offset st_f) = None.
Proof.
  revert k st. induction fuel as [|fuel IH]; intros k st H; [discriminate|].
  simpl in H.
  destruct (scan_step lib (env k) ids att_dir acc st) as [st1|] eqn:E.
  - eapply IH; eassumption.
  - injection H as <-. unfold scan_step in E.
    destruct (regex_search (processed st) (offset st)); [|reflexivity].
    destruct (resolve _ _ _ _ _ _ _ _) as [[? ?] ?]. discriminate.
Qed.

(** X11.  When [process_attachments] returns, no placeholder token is left
    at or after the point where the scan stopped; and a text in which the
    pattern finds nothing is returned unchanged, with an empty memo and no
    lookup for any attachment. *)
Theorem substitution_leaves_no_token lib env account_uuid_cache text note_pk
    owner_pk base_path ids st cache' :
  process_attachments lib env account_uuid_cache text note_pk owner_pk
    base_path ids = Some (st, cache') ->
  regex_search (processed st) (offset st) = None
  /\ (regex_search text 0 = None ->
      processed st = text /\ processed_cache st = ∅
      /\ Forall (fun e => is_lookup e = false) (events st)).
Proof.
  unfold process_attachments, initial_state.
  destruct (get_account_uuid _ _ _ _) as [[acc c] evs] eqn:Hacc.
  destruct (scan_loop _ _ _ _ _ _ _ _) as [st'|] eqn:Hloop; [|discriminate].
  intros [= <- <-]. split.
  - eapply scan_loop_ends_without_match; eassumption.
  - intros Hnone. simpl in Hloop. unfold scan_step in Hloop. simpl in Hloop.
    rewrite Hnone in Hloop. injection Hloop as <-. simpl.
    repeat split. constructor; [reflexivity|].
    unfold get_account_uuid in Hacc.
    destruct owner_pk as [pk|]; [|injection Hacc as <- <- <-; constructor].
    destruct (account_uuid_cache !! pk);
      [injection Hacc as <- <- <-; constructor|].
    unfold bind, emit, ret in Hacc.
    destruct (q_account (env 0) pk (ICAccount ids));
      injection Hacc as <- <- <-; repeat constructor.
Qed.

Lemma substitution_leaves_no_token_witness :
  exists st cache',
    process_attachments Samples.ascii_lib (fun _ => Samples.file_present) ∅
      (str "no attachment here") 1 None Samples.export_dir Samples.ids
    = Some (st, cache')
    /\ processed st = str "no attachment here".
Proof.
  destruct (process_attachments Samples.ascii_lib
              (fun _ => Samples.file_present) ∅ (str "no attachment here") 1
              None Samples.export_dir Samples.ids) as [[st c]|] eqn:E.
  - exists st, c. split; [reflexivity|].
    exact (proj1 (proj2 (substitution_leaves_no_token _ _ _ _ _ _ _ _ _ _ E)
      eq_refl)).
  - vm_compute in E. discriminate.
Defined.

(** X13.  [get_account_uuid] keeps what the cache already holds, and
    answers from the cache, without a query, for an owner that is in it.
    For an owner that is not: when the query raises, the answer is [None]
    and the cache is returned as it was, nothing being stored; when the
    query does not raise, the answer, which is the identifier of the row
    or [None] for a missing row, is stored for the owner, and asking again
    with the returned cache gives the same answer without a query, whatever
    the database holds then. *)
Theorem account_uuid_is_cached w cache pk z_ent_account u cache' evs :
  get_account_uuid w cache (Some pk) z_ent_account = ((u, cache'), evs) ->
  (forall k v, cache !! k = Some v -> cache' !! k = Some v)
  /\ (forall v, cache !! pk = Some v ->
        u = v /\ cache' = cache /\ evs = [])
  /\ (forall b, cache !! pk = None ->
        q_account w pk z_ent_account = OperationalError b ->
        u = None /\ cache' = cache /\ cache' !! pk = None
        /\ evs = [DbAccount pk])
  /\ (cache !! pk = None ->
      (forall b, q_account w pk z_ent_account <> OperationalError b) ->
      (q_account w pk z_ent_account = Row u
       \/ q_account w pk z_ent_account = NoRow /\ u = None)
      /\ cache' = <[pk := u]> cache /\ evs = [DbAccount pk]
      /\ forall w', get_account_uuid w' cache' (Some pk) z_ent_account
                    = ((u, cache'), [])).
Proof.
  unfold get_account_uuid, bind, emit, ret.
  destruct (cache !! pk) as [v|] eqn:Hc.
  - intros [= <- <- <-]. repeat apply conj; try discriminate; [auto|].
    intros v' [= <-]. auto.
  - destruct (q_account w pk z_ent_account) as [r| |b] eqn:Hq;
      intros [= <- <- <-].
    + repeat apply conj; try discriminate.
      * intros k v Hk. rewrite lookup_insert_ne; [assumption|congruence].
      * intros _ _. repeat apply conj; auto.
        intros w'. now rewrite !lookup_insert_eq.
    + repeat apply conj; try discriminate.
      * intros k v Hk. rewrite lookup_insert_ne; [assumption|congruence].
      * intros _ _. repeat apply conj; auto.
        intros w'. now rewrite !lookup_insert_eq.
    + repeat apply conj; try discriminate; auto.
      intros _ Hno. now destruct (Hno b).
Qed.

Lemma account_uuid_is_cached_witness :
  get_account_uuid Samples.bare (<[ 4%Z := Some (str "U") ]> ∅) (Some 4%Z) 1
  = ((Some (str "U"), <[ 4%Z := Some (str "U") ]> ∅), []).
Proof.
  assert (H0 : get_account_uuid Samples.account_store
                 (∅ : gmap Z (option pystr)) (Some 4%Z) 1
               = ((Some (str "U"), <[ 4%Z := Some (str "U") ]> ∅),
                  [DbAccount 4])) by reflexivity.
  destruct (account_uuid_is_cached _ _ _ _ _ _ _ H0)
    as (_ & _ & _ & Hstored).
  destruct Hstored as (_ & _ & _ & Hagain);
    [reflexivity|discriminate|].
  apply Hagain.
Defined.

Lemma account_query_error_is_not_cached :
  get_account_uuid Samples.account_query_fails ∅ (Some 4%Z) 1
  = ((None, ∅), [DbAccount 4]).
Proof. reflexivity. Qed.

End SubstituteLaws.

(** ** File names *)

Module FilenameLaws.

Import Storage Substitute.

Lemma lstrip_length s : length (lstrip s) <= length s.
Proof.
  induction s as [|c s IH]; simpl; [lia|].
  destruct (isspace c); simpl; lia.
Qed.

Lemma strip_length s : length (strip s) <= length s.
Proof.
  unfold strip, rstrip. rewrite length_rev.
  etransitivity; [apply lstrip_length|]. rewrite length_rev.
  apply lstrip_length.
Qed.

Lemma Forall_strip (P : N -> Prop) s : Forall P s -> Forall P (strip s).
Proof.
  rewrite !List.Forall_forall. intros H c Hc.
  apply H. now apply ReconstructLaws.in_strip.
Qed.

Lemma Forall_join (P : N -> Prop) sep parts :
  Forall P sep -> Forall (Forall P) parts -> Forall P (join sep parts).
Proof.
  intros Hsep H. induction H as [|p rest Hp Hrest IH]; simpl.
  - constructor.
  - destruct rest as [|q rest]; [assumption|].
    apply Forall_app. split; [assumption|].
    apply Forall_app. split; assumption.
Qed.

Lemma split_ws_aux_parts (P : N -> Prop) cur s :
  Forall P cur -> Forall (fun c => isspace c = true \/ P c) s ->
  Forall (Forall P) (split_ws_aux cur s).
Proof.
  revert cur. induction s as [|c s IH]; intros cur Hcur Hs; simpl.
  - destruct cur; repeat constructor. now apply Forall_rev.
  - inversion Hs as [|? ? Hc Hs']; subst.
    destruct (isspace c) eqn:Ec.
    + destruct cur as [|a cur].
      * apply IH; [constructor|assumption].
      * constructor; [now apply Forall_rev|].
        apply IH; [constructor|assumption].
    + apply IH; [|assumption].
      constructor; [|assumption]. destruct Hc; [congruence|assumption].
Qed.

(** X12.  A sanitized file name is never empty and never longer than 150
    characters; unless it is the stand-in "Untitled", it holds no white
    space and every character of it is alphanumeric, an underscore or a
    hyphen (or a slash, when slashes are allowed). *)
Theorem sanitized_filename_is_safe lib name allow_slashes :
  let r := sanitize_filename lib name allow_slashes in
  r <> [] /\ length r <= 150
  /\ (r = str "Untitled"
      \/ Forall (fun c =>
           isspace c = false
           /\ (isalnum lib c = true \/ c = 95%N \/ c = 45%N
               \/ (allow_slashes = true /\ c = 47%N))) r).
Proof.
  unfold sanitize_filename.
  set (nm := match name with Some s => s | None => str "Untitled" end).
  set (allowed := [32; 95; 45]%N ++ (if allow_slashes then [47]%N else [])).
  set (sanitized := filter _ nm).
  set (res := strip (py_slice (join (str "_") (split_ws sanitized)) 0 150)).
  destruct (truthy res) eqn:Hres.
  - split; [now apply TokenLaws.truthy_not_nil|]. split.
    + unfold res. etransitivity; [apply strip_length|].
      unfold py_slice. rewrite length_take. lia.
    + right. unfold res. apply Forall_strip. unfold py_slice.
      apply Forall_take. rewrite drop_0. apply Forall_join.
      * constructor; [|constructor]. split; [reflexivity|]. right. now left.
      * apply split_ws_aux_parts; [constructor|].
        apply List.Forall_forall. intros c Hc.
        apply list_elem_of_In in Hc.
        unfold sanitized in Hc. apply list_elem_of_filter in Hc as [Hc _].
        destruct (isspace c) eqn:Ec; [now left|right].
        split; [reflexivity|].
        apply orb_true_iff in Hc as [Hc|Hc]; [now left|right].
        apply existsb_exists in Hc as (a & Ha & Hca).
        apply N.eqb_eq in Hca as <-.
        unfold allowed in Ha. apply in_app_or in Ha as [Ha|Ha].
        -- simpl in Ha. destruct Ha as [<-|[<-|[<-|[]]]]; auto.
           discriminate Ec.
        -- destruct allow_slashes; simpl in Ha; [|tauto].
           destruct Ha as [<-|[]]. auto.
  - split; [discriminate|]. split; [simpl; lia|now left].
Qed.

Lemma table_extensions_are_dotted d uti e :
  Forall (fun kv => exists r, snd kv = 46%N :: r /\ r <> []) d ->
  dict_get d uti = Some e -> exists r, e = 46%N :: r /\ r <> [].
Proof.
  induction 1 as [|[k v] d Hkv _ IH]; simpl; [discriminate|].
  destruct (eqb uti k); [|exact IH]. now intros [= <-].
Qed.

(** X20.  For a UTI of the table the extension is the table's, whatever
    the library guesses and whatever the file is called, and it is a dot
    followed by at least one character.  The extension is empty only when
    the UTI is not in the table, the library guesses nothing for it
    ([None] or an empty string), and the fallback file name is there, is
    not empty and has no suffix. *)
Theorem extension_from_uti_cases lib uti fallback_filename :
  let ext := get_extension_from_uti lib uti fallback_filename in
  (forall e, dict_get UTI_EXTENSIONS uti = Some e ->
     ext = e /\ exists r, e = 46%N :: r /\ r <> [])
  /\ (ext = [] ->
      dict_get UTI_EXTENSIONS uti = None
      /\ (guess_extension lib uti = None
          \/ guess_extension lib uti = Some [])
      /\ exists f, fallback_filename = Some f /\ f <> []
                   /\ path_suffix lib f = [])
  /\ (forall c g, dict_get UTI_EXTENSIONS uti = None ->
        guess_extension lib uti = Some (c :: g) -> ext = c :: g)
  /\ (dict_get UTI_EXTENSIONS uti = None ->
      guess_extension lib uti = None \/ guess_extension lib uti = Some [] ->
      ext = match fallback_filename with
            | Some (c :: f) => path_suffix lib (c :: f)
            | _ => str ".bin"
            end).
Proof.
  unfold get_extension_from_uti. split; [|split; [|split]];
    [| |intros c g -> ->; reflexivity
     |intros -> [->| ->]; reflexivity].
  - intros e He. rewrite He. split; [reflexivity|].
    apply (table_extensions_are_dotted UTI_EXTENSIONS uti e); [|exact He].
    unfold UTI_EXTENSIONS.
    repeat (constructor; [eexists; split; [reflexivity|discriminate]|]).
    constructor.
  - destruct (dict_get UTI_EXTENSIONS uti) as [e|] eqn:He.
    + intros ->.
      destruct (table_extensions_are_dotted UTI_EXTENSIONS uti [])
        as (r & Hr & _); [|exact He|discriminate Hr].
      unfold UTI_EXTENSIONS.
      repeat (constructor; [eexists; split; [reflexivity|discriminate]|]).
      constructor.
    + intros Hext. split; [reflexivity|].
      destruct (guess_extension lib uti) as [[|c g]|]; try discriminate;
        (split; [auto|]);
        (destruct fallback_filename as [[|c f]|]; try discriminate;
         exists (c :: f); repeat split; [discriminate|exact Hext]).
Qed.

End FilenameLaws.

(** ** Further properties of the titles *)

Module TitleLaws.

Import Composer Corpus.

Lemma py_slice_from_0 s n : py_slice s 0 n = take n s.
Proof. unfold py_slice. now rewrite Nat.sub_0_r, drop_0. Qed.





End TitleLaws.

(** ** Entity numbers, folder owners and the list of notes *)

Module CatalogLaws.

Import Storage Catalog.

Lemma override_dom d row : dom (override d row) = dom d.
Proof.
  destruct row as [name e]. unfold override. case_bool_decide as H; [|done].
  rewrite dom_insert_L. apply elem_of_dom in H.
  apply subseteq_union_1_L, singleton_subseteq_l. exact H.
Qed.

Lemma fold_override_dom rows d : dom (fold_left override rows d) = dom d.
Proof.
  revert d. induction rows as [|r rows IH]; intros d; simpl; [done|].
  now rewrite IH, override_dom.
Qed.

Lemma fold_override_other rows d (name : pystr) :
  Forall (fun r => fst r <> name) rows ->
  fold_left override rows d !! name = d !! name.
Proof.
  intros H. revert d. induction H as [|[n e] rows Hr _ IH]; intros d; simpl;
    [done|].
  rewrite IH. destruct (bool_decide (is_Some (d !! n))); [|done].
  apply lookup_insert_ne. exact Hr.
Qed.

(** X16.  Whatever Z_PRIMARYKEY holds, the dictionary of entity numbers
    keeps exactly its five keys, so that each of the five subscripts the
    export makes succeeds.  For each of them the last row of the table with
    that name gives the number; a name without a row keeps its default, and
    rows with other names are ignored. *)
Theorem entity_ids_keep_their_five_keys table :
  dom (get_entity_ids table) = dom default_entity_ids
  /\ is_Some (entity_ids_record (get_entity_ids table))
  /\ (forall pre name e post,
        table = Some (pre ++ (name, e) :: post) ->
        Forall (fun r => fst r <> name) post ->
        is_Some (default_entity_ids !! name) ->
        get_entity_ids table !! name = Some e)
  /\ (forall rows name,
        table = Some rows ->
        Forall (fun r => fst r <> name) rows ->
        get_entity_ids table !! name = default_entity_ids !! name).
Proof.
  assert (Hdom : dom (get_entity_ids table) = dom default_entity_ids).
  { destruct table as [rows|]; [apply fold_override_dom|done]. }
  split; [exact Hdom|]. split; [|split].
  - assert (Hkey : forall k, k ∈ dom default_entity_ids ->
                     is_Some (get_entity_ids table !! k)).
    { intros k Hk. apply elem_of_dom. now rewrite Hdom. }
    unfold entity_ids_record.
    destruct (Hkey (str "ICNote")) as [n ->]; [now apply elem_of_dom|].
    destruct (Hkey (str "ICFolder")) as [f ->]; [now apply elem_of_dom|].
    destruct (Hkey (str "ICAttachment")) as [a ->]; [now apply elem_of_dom|].
    destruct (Hkey (str "ICMedia")) as [m ->]; [now apply elem_of_dom|].
    destruct (Hkey (str "ICAccount")) as [c ->]; [now apply elem_of_dom|].
    simpl. eauto.
  - intros pre name e post -> Hpost Hname. simpl.
    rewrite fold_left_app. simpl.
    rewrite (fold_override_other _ _ _ Hpost).
    assert (Hin : is_Some (fold_left override pre default_entity_ids !! name)).
    { apply elem_of_dom. rewrite fold_override_dom. now apply elem_of_dom. }
    rewrite bool_decide_eq_true_2 by exact Hin.
    apply lookup_insert_eq.
  - intros rows name -> Hrows. simpl. now apply fold_override_other.
Qed.

Lemma entity_ids_keep_their_five_keys_witness :
  get_entity_ids
    (Some [(str "ICNote", 12%Z); (str "ICOther", 40%Z);
           (str "ICNote", 11%Z); (str "ICMedia", 9%Z)])
  !! str "ICNote" = Some 11%Z.
Proof.
  refine (proj1 (proj2 (proj2 (entity_ids_keep_their_five_keys _)))
    [(str "ICNote", 12%Z); (str "ICOther", 40%Z)] (str "ICNote") 11%Z
    [(str "ICMedia", 9%Z)] eq_refl _ _).
  - repeat constructor. discriminate.
  - now apply elem_of_dom.
Defined.

Section Folders.

Variable T : Type.
Variable db : Db T.
Variable z_ent_folder : Z.

Lemma resolve_cached limit c pk owner :
  folder_owner_cache c !! pk = Some owner ->
  resolve_folder_owner T (S limit) db c (Some pk) z_ent_folder
  = Some (owner, c).
Proof. intros H. simpl. now rewrite H. Qed.

Lemma resolve_unfold limit c pk :
  resolve_folder_owner T (S limit) db c (Some pk) z_ent_folder
  = match folder_owner_cache c !! pk with
    | Some owner => Some (owner, c)
    | None =>
        let '((owner_pk, parent_pk, _), ftc) :=
          get_folder_info T db (folder_type_cache c) (Some pk)
            z_ent_folder in
        let c1 := with_folder_types c ftc in
        match owner_pk, parent_pk with
        | Some o, _ => Some (Some o, with_folder_owner c1 pk (Some o))
        | None, Some parent =>
            match resolve_folder_owner T limit db c1 (Some parent)
                    z_ent_folder with
            | Some (final_owner, c2) =>
                Some (final_owner, with_folder_owner c2 pk final_owner)
            | None => None
            end
        | None, None => Some (None, with_folder_owner c1 pk None)
        end
    end.
Proof. reflexivity. Qed.

Lemma resolve_chain o parent_of_last type_of_last last chain :
  q_folder T db last z_ent_folder
    = Row (Some o, parent_of_last, type_of_last) ->
  (forall i pk, chain !! i = Some pk ->
     exists t, q_folder T db pk z_ent_folder
               = Row (None, Some (default last (chain !! S i)), t)) ->
  forall c,
    (forall pk, In pk (chain ++ [last]) ->
       folder_owner_cache c !! pk = None) ->
    exists c',
      resolve_folder_owner T (S (length chain)) db c
        (Some (default last (chain !! 0))) z_ent_folder = Some (Some o, c')
      /\ forall pk, In pk (chain ++ [last]) ->
           folder_owner_cache c' !! pk = Some (Some o).
Proof.
  intros Hlast. induction chain as [|f rest IH]; intros Hchain c Hmiss.
  - cbn [default lookup list_lookup length resolve_folder_owner].
    rewrite (Hmiss last) by (now left).
    unfold get_folder_info. rewrite Hlast.
    eexists. split; [reflexivity|].
    intros pk [<-|[]]. simpl. apply lookup_insert_eq.
  - destruct (Hchain 0 f eq_refl) as [t Hf].
    change (default last ((f :: rest) !! 0)) with f.
    change (length (f :: rest)) with (S (length rest)).
    rewrite resolve_unfold.
    rewrite (Hmiss f) by (now left).
    unfold get_folder_info. rewrite Hf.
    change ((f :: rest) !! 1) with (rest !! 0).
    cbv beta iota zeta.
    set (c1 := with_folder_types c _).
    destruct (IH (fun i pk H => Hchain (S i) pk H) c1) as (c2 & Hrec & Hall).
    { intros pk Hpk. apply (Hmiss pk). now right. }
    rewrite Hrec. eexists. split; [reflexivity|].
    intros pk Hpk. simpl. rewrite lookup_insert. case_decide; [done|].
    apply Hall. destruct Hpk as [->|Hpk]; [congruence|exact Hpk].
Qed.

(** X17.  When a folder without owner lies in a chain of parents that ends
    in a folder with an owner, none of them being in the owner cache, its
    owner is resolved to that owner given a recursion limit of the length
    of the chain; every folder of the chain is then in the cache with that
    owner, and resolving any of them again returns it from the cache,
    whatever the database holds by then. *)
Theorem folder_owner_is_nearest_ancestor o parent_of_last type_of_last last
    chain c :
  q_folder T db last z_ent_folder
    = Row (Some o, parent_of_last, type_of_last) ->
  (forall i pk, chain !! i = Some pk ->
     exists t, q_folder T db pk z_ent_folder
               = Row (None, Some (default last (chain !! S i)), t)) ->
  (forall pk, In pk (chain ++ [last]) ->
     folder_owner_cache c !! pk = None) ->
  exists c',
    resolve_folder_owner T (S (length chain)) db c
      (Some (default last (chain !! 0))) z_ent_folder = Some (Some o, c')
    /\ forall pk db' limit, In pk (chain ++ [last]) ->
         resolve_folder_owner T (S limit) db' c' (Some pk) z_ent_folder
         = Some (Some o, c').
Proof.
  intros Hlast Hchain Hmiss.
  destruct (resolve_chain _ _ _ _ _ Hlast Hchain c Hmiss) as (c' & Hres & Hall).
  exists c'. split; [exact Hres|].
  intros pk db' limit Hpk. simpl. now rewrite (Hall pk Hpk).
Qed.

(** X18.  Among folders that are not in the owner cache, have no owner of
    their own and each have a parent among them, as in a cycle of parents,
    the resolution of the owner never comes to an end: it exceeds every
    recursion limit. *)
Theorem folder_cycle_exceeds_every_limit (S0 : Z -> Prop) c :
  (forall pk, S0 pk ->
     folder_owner_cache c !! pk = None
     /\ exists p t, q_folder T db pk z_ent_folder = Row (None, Some p, t)
                    /\ S0 p) ->
  forall limit pk, S0 pk ->
    resolve_folder_owner T limit db c (Some pk) z_ent_folder = None.
Proof.
  intros Hall limit. revert c Hall.
  induction limit as [|limit IH]; intros c Hall pk Hpk; [reflexivity|].
  destruct (Hall pk Hpk) as (Hmiss & p & t & Hq & Hp).
  rewrite resolve_unfold, Hmiss.
  unfold get_folder_info. rewrite Hq. cbv beta iota zeta.
  rewrite IH; [reflexivity| |exact Hp].
  intros pk' Hpk'. exact (Hall pk' Hpk').
Qed.

(** What holds of a note of the returned list, given the rows it was drawn
    from. *)
Local Abbreviation kept rows n :=
  (n_blob T n <> []
   /\ exists row nd f,
        In row rows
        /\ n_pk T n = r_pk T row /\ n_title T n = r_title T row
        /\ n_summary T n = r_snip T row /\ n_created T n = r_cr T row
        /\ n_modified T n = r_mod T row
        /\ r_nd_pk T row = Some nd /\ r_f_pk T row = Some f
        /\ q_data T db nd = Row (Some (n_blob T n))
        /\ forall o p t, q_folder T db f z_ent_folder = Row (o, p, t) ->
             t <> None /\ t <> Some DEFAULT_FOLDER_TYPE_TRASH
             /\ t <> Some DEFAULT_FOLDER_TYPE_SMART).

Local Abbreviation post rows notes sk e :=
  (e = RecursionError
   \/ exists more,
        gathered T e = notes ++ more
        /\ Forall (fun n => kept rows n) more
        /\ map (n_pk T) more `sublist_of` map (r_pk T) rows
        /\ forall ns c' sk', e = Returned ns c' sk' ->
             length more + skipped sk' = skipped sk + length rows).

Lemma post_skip row rest notes sk sk1 e :
  skipped sk1 = S (skipped sk) ->
  post rest notes sk1 e -> post (row :: rest) notes sk e.
Proof.
  intros Hsk [->|(more & Hg & Hk & Hs & Hn)]; [now left|right].
  exists more. split; [exact Hg|]. split; [|split].
  - eapply Forall_impl; [exact Hk|]. cbv beta.
    intros n (Hb & r & nd & f & Hin & H). split; [exact Hb|].
    exists r, nd, f. split; [now right|exact H].
  - simpl. now apply sublist_cons.
  - intros ns c' sk' He. specialize (Hn ns c' sk' He). simpl. lia.
Qed.

Lemma post_keep row rest notes sk n e :
  kept (row :: rest) n -> n_pk T n = r_pk T row ->
  post rest (notes ++ [n]) sk e -> post (row :: rest) notes sk e.
Proof.
  intros Hkept Hpk [->|(more & Hg & Hk & Hs & Hn)]; [now left|right].
  exists (n :: more). split; [now rewrite Hg, <- app_assoc|].
  split; [|split].
  - constructor; [exact Hkept|].
    eapply Forall_impl; [exact Hk|]. cbv beta.
    intros n' (Hb & r & nd & f & Hin & H). split; [exact Hb|].
    exists r, nd, f. split; [now right|exact H].
  - simpl. rewrite Hpk. now apply sublist_skip.
  - intros ns c' sk' He. specialize (Hn ns c' sk' He). simpl. lia.
Qed.

Lemma folder_type_from_row ftc pk a b ft ftc' :
  get_folder_info T db ftc (Some pk) z_ent_folder = ((a, b, ft), ftc') ->
  forall o p t, q_folder T db pk z_ent_folder = Row (o, p, t) -> ft = t.
Proof.
  unfold get_folder_info. intros H o p t Hq. rewrite Hq in H.
  now injection H as _ _ <- _.
Qed.

Lemma notes_loop_post limit rows :
  forall notes c sk,
    post rows notes sk (notes_loop T limit db z_ent_folder rows notes c sk).
Proof.
  induction rows as [|row rest IH]; intros notes c sk.
  - right. exists []. simpl. rewrite app_nil_r.
    repeat split; [constructor|constructor|].
    intros ns c' sk' [= _ _ <-]. lia.
  - cbn [notes_loop].
    destruct (r_nd_pk T row) as [nd|] eqn:Hnd;
      [|eapply post_skip; [|apply IH]; unfold skipped; simpl; lia].
    destruct (r_f_pk T row) as [f|] eqn:Hf;
      [|eapply post_skip; [|apply IH]; unfold skipped; simpl; lia].
    destruct (get_folder_info T db (folder_type_cache c) (Some f)
                z_ent_folder) as [[[a b] ft] ftc] eqn:Hinfo.
    destruct ft as [t|];
      [|eapply post_skip; [|apply IH]; unfold skipped; simpl; lia].
    destruct (Z.eqb_spec t DEFAULT_FOLDER_TYPE_SMART) as [_|Hsmart];
      [eapply post_skip; [|apply IH]; unfold skipped; simpl; lia|].
    destruct (Z.eqb_spec t DEFAULT_FOLDER_TYPE_TRASH) as [_|Htrash];
      [eapply post_skip; [|apply IH]; unfold skipped; simpl; lia|].
    destruct (resolve_folder_owner T limit db _ (Some f) z_ent_folder)
      as [[owner c2]|]; [|now left].
    destruct (q_data T db nd) as [blob| |e] eqn:Hdata.
    + destruct (truthy_blob blob) as [bl|] eqn:Hblob;
        [|eapply post_skip; [|apply IH]; unfold skipped; simpl; lia].
      eapply post_keep; [| |apply IH]; [|reflexivity].
      assert (Hbl : blob = Some bl /\ bl <> []).
      { destruct blob as [[|x r]|]; simpl in Hblob; try discriminate.
        injection Hblob as <-. split; [reflexivity|discriminate]. }
      destruct Hbl as [-> Hne]. split; [exact Hne|].
      exists row, nd, f. simpl. repeat split; auto.
      * pose proof (folder_type_from_row _ _ _ _ _ _ Hinfo _ _ _ H)
          as Ht. congruence.
      * pose proof (folder_type_from_row _ _ _ _ _ _ Hinfo _ _ _ H)
          as Ht. congruence.
      * pose proof (folder_type_from_row _ _ _ _ _ _ Hinfo _ _ _ H)
          as Ht. congruence.
    + simpl. eapply post_skip; [|apply IH]. unfold skipped; simpl; lia.
    + right. exists []. simpl. rewrite app_nil_r.
      repeat split; [constructor|apply sublist_nil_l|].
      intros ns c' sk' H. discriminate H.
Qed.

(** X19.  Every note in the list of [get_notes_and_owners], complete or
    cut short by a database error, has a non-empty blob, which is the data
    of a row of the notes query that names a data row and a folder; the
    type of that folder, when the database gives it, is neither missing nor
    trash nor smart; and the notes come in the order of the rows.  When the
    list is complete, the notes and the four counters of skipped notes add
    up to the number of rows. *)
Theorem listed_notes_have_data_and_a_plain_folder limit c z_ent_note
    all_notes :
  q_notes T db z_ent_note = Some all_notes ->
  let e := get_notes_and_owners T limit db c z_ent_note z_ent_folder in
  Forall (fun n =>
      n_blob T n <> []
      /\ exists row nd f,
           In row all_notes
           /\ n_pk T n = r_pk T row /\ n_title T n = r_title T row
           /\ n_summary T n = r_snip T row /\ n_created T n = r_cr T row
           /\ n_modified T n = r_mod T row
           /\ r_nd_pk T row = Some nd /\ r_f_pk T row = Some f
           /\ q_data T db nd = Row (Some (n_blob T n))
           /\ forall o p t, q_folder T db f z_ent_folder = Row (o, p, t) ->
                t <> None /\ t <> Some DEFAULT_FOLDER_TYPE_TRASH
                /\ t <> Some DEFAULT_FOLDER_TYPE_SMART)
    (gathered T e)
  /\ map (n_pk T) (gathered T e) `sublist_of` map (r_pk T) all_notes
  /\ forall ns c' sk, e = Returned ns c' sk ->
       length ns + skipped sk = length all_notes.
Proof.
  intros Hq e. unfold e, get_notes_and_owners. rewrite Hq.
  destruct (notes_loop_post limit all_notes [] c
              {| trash := 0; smart := 0; no_data := 0; no_folder := 0 |})
    as [->|(more & Hg & Hk & Hs & Hn)].
  - simpl. repeat split; [constructor|apply sublist_nil_l|discriminate].
  - simpl in Hg. rewrite Hg. repeat split; [exact Hk|exact Hs|].
    intros ns c' sk He. specialize (Hn ns c' sk He).
    rewrite He in Hg. simpl in Hg. subst ns. exact Hn.
Qed.

End Folders.

Lemma listed_notes_have_data_and_a_plain_folder_witness :
  match get_notes_and_owners unit 10 Samples.nested_folders no_caches 10 5
  with
  | Returned ns _ sk =>
      map (n_pk unit) ns = [100%Z] /\ length ns + skipped sk = 3
  | _ => False
  end.
Proof.
  destruct (get_notes_and_owners unit 10 Samples.nested_folders no_caches
              10 5) as [ns c' sk| |] eqn:E.
  - split.
    + vm_compute in E. injection E as <- _ _. reflexivity.
    + exact (proj2 (proj2 (listed_notes_have_data_and_a_plain_folder unit
        Samples.nested_folders 5 10 no_caches 10 _ eq_refl)) ns c' sk E).
  - vm_compute in E. discriminate.
  - vm_compute in E. discriminate.
Defined.

Lemma folder_owner_is_nearest_ancestor_witness :
  exists c',
    resolve_folder_owner unit 3 Samples.nested_folders no_caches (Some 1%Z) 5
    = Some (Some 9%Z, c')
    /\ resolve_folder_owner unit 1 Samples.folder_cycle c' (Some 2%Z) 5
       = Some (Some 9%Z, c').
Proof.
  destruct (folder_owner_is_nearest_ancestor unit Samples.nested_folders 5
    9 None (Some 0%Z) 3 [1%Z; 2%Z] no_caches eq_refl) as (c' & Hres & Hmemo).
  - intros [|[|i]] pk H; simpl in H; try discriminate;
      injection H as <-; eexists; reflexivity.
  - intros pk _. reflexivity.
  - exists c'. split; [exact Hres|].
    apply Hmemo. simpl. tauto.
Defined.

Lemma folder_cycle_exceeds_every_limit_witness :
  resolve_folder_owner unit 1000 Samples.folder_cycle no_caches (Some 1%Z) 5
  = None.
Proof.
  apply (folder_cycle_exceeds_every_limit unit Samples.folder_cycle 5
           (fun _ => True)); [|exact I].
  intros pk _. split; [reflexivity|].
  do 2 eexists. split; [reflexivity|exact I].
Defined.

End CatalogLaws.
